(** * table-extract: the table geometry engine and the style mapper

    A shallow embedding of [tags/table.py] and [attribute.py].

    Conventions of the embedding.
    - A Python [str] is a [string]; every character counts for one
      position, and the character classes used by [lower], [strip] and
      the pattern [\w] are those of ASCII text.
    - Line counts, character counts and widths are natural numbers.
    - A Python object that is mutated in place becomes a value that the
      operation returns; every cell of a table is an object of its own.
    - A computation that may raise returns an [option] (table side, where
      the only exception is the [ValueError] of [max] on an empty
      sequence) or an [outcome] (style side, where the kind of the
      exception decides who catches it). *)

From Stdlib Require Import ZArith Ascii String.
From stdpp Require Import base option list strings.

Local Open Scope nat_scope.

(** ** Python string operations used by the table engine *)

Module Str.

Definition nl : ascii := "010"%char.
Definition space : ascii := " "%char.

(** The string of one line break. *)
Definition NL : string := String nl EmptyString.

(** [len(s)] *)
Definition len (s : string) : nat := String.length s.

(** [s.split(sep)] for a separator of one character. *)
Fixpoint split (sep : ascii) (s : string) : list string :=
  match s with
  | EmptyString => [EmptyString]
  | String c s' =>
      if Ascii.eqb c sep then EmptyString :: split sep s'
      else match split sep s' with
           | h :: t => String c h :: t
           | [] => [String c EmptyString]
           end
  end.

(** [sep.join(l)] *)
Fixpoint join (sep : string) (l : list string) : string :=
  match l with
  | [] => EmptyString
  | [x] => x
  | x :: rest => x +:+ sep +:+ join sep rest
  end.

(** [n * " "] *)
Fixpoint spaces (n : nat) : string :=
  match n with
  | 0 => EmptyString
  | S n' => String space (spaces n')
  end.

(** [c in s] for one character. *)
Fixpoint contains (c : ascii) (s : string) : bool :=
  match s with
  | EmptyString => false
  | String c' s' => Ascii.eqb c' c || contains c s'
  end.

(** [s1 == s2] *)
Definition eqb (s1 s2 : string) : bool := String.eqb s1 s2.

(** ASCII character classes. *)
Definition in_range (lo hi : nat) (c : ascii) : bool :=
  let n := nat_of_ascii c in (lo <=? n) && (n <=? hi).
Definition is_upper (c : ascii) : bool := in_range 65 90 c.
Definition is_lower (c : ascii) : bool := in_range 97 122 c.
Definition is_digit (c : ascii) : bool := in_range 48 57 c.

(** The whitespace that [strip] removes: tab to carriage return, the four
    separators 28 to 31, and the space. *)
Definition is_space (c : ascii) : bool :=
  in_range 9 13 c || in_range 28 32 c.

(** The class [\w]: letters, digits and the underscore. *)
Definition is_word (c : ascii) : bool :=
  is_upper c || is_lower c || is_digit c || Ascii.eqb c "_"%char.

(** [s.lower()] *)
Definition lower_char (c : ascii) : ascii :=
  if is_upper c then ascii_of_nat (nat_of_ascii c + 32) else c.
Fixpoint lower (s : string) : string :=
  match s with
  | EmptyString => EmptyString
  | String c s' => String (lower_char c) (lower s')
  end.

(** [s.strip()] *)
Fixpoint lstrip (s : string) : string :=
  match s with
  | EmptyString => EmptyString
  | String c s' => if is_space c then lstrip s' else s
  end.
Fixpoint rstrip (s : string) : string :=
  match s with
  | EmptyString => EmptyString
  | String c s' =>
      match rstrip s' with
      | EmptyString => if is_space c then EmptyString else String c EmptyString
      | r => String c r
      end
  end.
Definition strip (s : string) : string := rstrip (lstrip s).

(** [s.split(sep, 1)] for a string that contains the separator: the text
    before its first occurrence and the text after it. *)
Fixpoint split_once (sep : ascii) (s : string) : string * string :=
  match s with
  | EmptyString => (EmptyString, EmptyString)
  | String c s' =>
      if Ascii.eqb c sep then (EmptyString, s')
      else let '(a, b) := split_once sep s' in (String c a, b)
  end.

(** [s.startswith(p)] *)
Fixpoint startswith (p s : string) : bool :=
  match p, s with
  | EmptyString, _ => true
  | String a p', String b s' => Ascii.eqb a b && startswith p' s'
  | String _ _, EmptyString => false
  end.

(** [s.replace(old, new)] for a non-empty [old]: occurrences are replaced
    from the left and do not overlap; [skip] counts the characters of the
    occurrence just replaced that are still to be passed over. *)
Fixpoint replace_from (skip : nat) (old new s : string) : string :=
  match s with
  | EmptyString => EmptyString
  | String c s' =>
      match skip with
      | S k => replace_from k old new s'
      | 0 =>
          if startswith old s
          then new +:+ replace_from (String.length old - 1) old new s'
          else String c (replace_from 0 old new s')
      end
  end.
Definition replace (old new s : string) : string := replace_from 0 old new s.

(** The longest prefix of characters of a class, and the rest. *)
Fixpoint span (p : ascii -> bool) (s : string) : string * string :=
  match s with
  | EmptyString => (EmptyString, EmptyString)
  | String c s' =>
      if p c then let '(a, b) := span p s' in (String c a, b)
      else (EmptyString, s)
  end.

End Str.

(** [max(iterable)]: raises [ValueError] on an empty sequence. *)
Definition py_max (l : list nat) : option nat :=
  match l with
  | [] => None
  | x :: rest => Some (foldl Nat.max x rest)
  end.

(** [zip] over the unpacked list of lists: stops at the shortest list; no
    list gives no tuple. *)
Fixpoint py_zip {A} (ls : list (list A)) : list (list A) :=
  match ls with
  | [] => []
  | l :: rest =>
      match rest with
      | [] => map (fun x => [x]) l
      | _ => zip_with cons l (py_zip rest)
      end
  end.

(** ** html_properties: the enumerations *)

Module HorizontalAlignment.
(** Modelled from the spec: the enumeration of horizontal alignments
    (its declaration is not part of the sources at hand); the values are
    the alignment characters of a format specification. *)
Inductive t := left | right | center.
End HorizontalAlignment.

Module VerticalAlignment.
(** Modelled from the spec: the enumeration of vertical alignments. *)
Inductive t := top | middle | bottom.
End VerticalAlignment.

(** [format_spec.format(b)] where [format_spec] is ["{:<w}"], ["{:>w}"] or
    ["{:^w}"]: the width is a minimum, the fill is a space, and centring
    puts the odd space on the right. *)
Definition py_format (a : HorizontalAlignment.t) (width : nat) (b : string)
  : string :=
  let n := Str.len b in
  if width <=? n then b
  else
    let pad := width - n in
    match a with
    | HorizontalAlignment.left => b +:+ Str.spaces pad
    | HorizontalAlignment.right => Str.spaces pad +:+ b
    | HorizontalAlignment.center =>
        Str.spaces (pad / 2) +:+ b +:+ Str.spaces (pad - pad / 2)
    end.

(** ** TableCell *)

Module TableCell.

Record t := mk {
  blocks : list string;
  current_block : string;
  align : HorizontalAlignment.t;
  valign : VerticalAlignment.t;
  _width : option nat;
  line_width : option (list nat);
  vertical_padding : nat
}.

(** [TableCell(align, valign)] *)
Definition init (a : HorizontalAlignment.t) (v : VerticalAlignment.t) : t :=
  mk [] EmptyString a v None None 0.

(** Modelled from the spec: [Canvas.flush_inline], which seals the
    pending inline buffer into a new completed block and does nothing
    when the pending buffer is empty. *)
Definition flush_inline (c : t) : t :=
  match current_block c with
  | EmptyString => c
  | pending =>
      mk (blocks c ++ [pending]) EmptyString (align c) (valign c)
         (_width c) (line_width c) (vertical_padding c)
  end.

(** [normalize_blocks]: the returned height and the cell afterwards. *)
Definition normalize_blocks (c : t) : nat * t :=
  let c1 := flush_inline c in
  let bs := concat (map (Str.split Str.nl) (blocks c1)) in
  let bs' := match bs with [] => [EmptyString] | _ => bs end in
  (length bs',
   mk bs' (current_block c1) (align c1) (valign c1)
      (_width c1) (line_width c1) (vertical_padding c1)).

(** The [height] property. *)
Definition height (c : t) : nat := Nat.max 1 (length (blocks c)).

(** The [width] property; [None] is the [ValueError] of [max] on a cell
    without blocks. A width of [0] is falsy, as is [None]. *)
Definition width (c : t) : option nat :=
  match _width c with
  | Some (S w) => Some (S w)
  | _ =>
      py_max (map Str.len (concat (map (Str.split Str.nl) (blocks c))))
  end.

(** The [width] setter. *)
Definition set_width (c : t) (w : nat) : t :=
  mk (map (py_format (align c) w) (blocks c)) (current_block c)
     (align c) (valign c) (Some w) (Some (map Str.len (blocks c)))
     (vertical_padding c).

(** The [height] setter. *)
Definition set_height (c : t) (h : nat) : t :=
  let rows := length (blocks c) in
  if rows <? h then
    match valign c with
    | VerticalAlignment.bottom =>
        let vp := h - rows in
        mk (replicate vp EmptyString ++ blocks c) (current_block c)
           (align c) (valign c) (_width c) (line_width c) vp
    | VerticalAlignment.middle =>
        let vp := (h - rows) / 2 in
        mk (replicate vp EmptyString ++ blocks c
            ++ replicate ((h - rows + 1) / 2) EmptyString)
           (current_block c) (align c) (valign c) (_width c)
           (line_width c) vp
    | VerticalAlignment.top =>
        mk (blocks c ++ replicate (h - rows) EmptyString)
           (current_block c) (align c) (valign c) (_width c)
           (line_width c) (vertical_padding c)
    end
  else c.

End TableCell.

(** ** TableRow *)

Module TableRow.

Record t := mk {
  columns : list TableCell.t;
  cell_separator : string
}.

Definition init (sep : string) : t := mk [] sep.

(** [__len__] *)
Definition len (r : t) : nat := length (columns r).

(** [get_text] *)
Definition get_text (r : t) : string :=
  let row_lines :=
    map (Str.join (cell_separator r))
        (py_zip (map TableCell.blocks (columns r))) in
  Str.join Str.NL row_lines.

(** The [width] property; [None] when the width of a cell raises. *)
Definition width (r : t) : option nat :=
  match columns r with
  | [] => Some 0
  | cs =>
      ws ← mapM TableCell.width cs;
      Some (foldr Nat.add 0 ws
            + Str.len (cell_separator r) * (length cs - 1))
  end.

End TableRow.

(** ** Table *)

Module Table.

Record t := mk {
  rows : list TableRow.t;
  left_margin_len : nat;
  cell_separator : string
}.

Definition init (left_margin_len : nat) (sep : string) : t :=
  mk [] left_margin_len sep.

Definition with_rows (tb : t) (rs : list TableRow.t) : t :=
  mk rs (left_margin_len tb) (cell_separator tb).

(** [add_row] *)
Definition add_row (tb : t) : t :=
  with_rows tb (rows tb ++ [TableRow.init (cell_separator tb)]).

(** [self.rows[-1].columns.append(cell)] on a list of rows. *)
Fixpoint append_to_last (rs : list TableRow.t) (c : TableCell.t)
  : list TableRow.t :=
  match rs with
  | [] => []
  | [r] => [TableRow.mk (TableRow.columns r ++ [c])
                        (TableRow.cell_separator r)]
  | r :: rest => r :: append_to_last rest c
  end.

(** [add_cell] *)
Definition add_cell (tb : t) (c : TableCell.t) : t :=
  let tb1 := match rows tb with [] => add_row tb | _ => tb end in
  with_rows tb1 (append_to_last (rows tb1) c).

(** The value bound to [max_row_height] for one row: the largest height
    that [normalize_blocks] returns over the row's cells, [0] without
    cells. *)
Definition max_row_height (r : TableRow.t) : nat :=
  match TableRow.columns r with
  | [] => 0
  | cs => default 0 (py_max (map (fun c => fst (TableCell.normalize_blocks c)) cs))
  end.

(** One iteration of the loop of [_set_row_height]: the generator
    normalizes every cell, then every cell gets the row's height. *)
Definition row_height_pass (r : TableRow.t) : TableRow.t :=
  let h := max_row_height r in
  TableRow.mk
    (map (fun c => TableCell.set_height (snd (TableCell.normalize_blocks c)) h)
         (TableRow.columns r))
    (TableRow.cell_separator r).

(** [_set_row_height] *)
Definition _set_row_height (tb : t) : t :=
  with_rows tb (map row_height_pass (rows tb)).

(** [row.columns[idx].width] for a row that has the index. *)
Definition cell_width_at (idx : nat) (r : TableRow.t) : option nat :=
  TableRow.columns r !! idx ≫= TableCell.width.

(** The value bound to [max_column_width]: [max] over the widths of the
    cells at [idx] of the rows that are long enough. *)
Definition max_column_width (idx : nat) (rs : list TableRow.t)
  : option nat :=
  ws ← mapM (cell_width_at idx)
            (filter (fun r => idx < TableRow.len r) rs);
  py_max ws.

(** The body of the inner loop: [row.columns[idx].width = w] for a row
    that has the index, nothing for a shorter row. *)
Definition set_column_in_row (idx w : nat) (r : TableRow.t) : TableRow.t :=
  if decide (idx < TableRow.len r) then
    TableRow.mk
      (alter (fun c => TableCell.set_width c w) idx (TableRow.columns r))
      (TableRow.cell_separator r)
  else r.

(** The inner loop that assigns the width of one column. *)
Definition set_column (idx w : nat) (rs : list TableRow.t)
  : list TableRow.t :=
  map (set_column_in_row idx w) rs.

(** The loop over [range(max_columns)]. *)
Fixpoint column_loop (idxs : list nat) (rs : list TableRow.t)
  : option (list TableRow.t) :=
  match idxs with
  | [] => Some rs
  | idx :: rest =>
      w ← max_column_width idx rs;
      column_loop rest (set_column idx w rs)
  end.

(** [_set_column_width] *)
Definition _set_column_width (tb : t) : option t :=
  max_columns ← py_max (map TableRow.len (rows tb));
  rs ← column_loop (seq 0 max_columns) (rows tb);
  Some (with_rows tb rs).

(** [get_text]: the rendered text and the table afterwards. *)
Definition get_text (tb : t) : option (string * t) :=
  match rows tb with
  | [] => Some (Str.NL, tb)
  | _ =>
      tb2 ← _set_column_width (_set_row_height tb);
      Some (Str.join Str.NL
                     (map TableRow.get_text (rows tb2))
            +:+ Str.NL,
            tb2)
  end.

End Table.


(** ** Floating point numbers, as far as [_get_em] uses them *)

Module Float.

(** A binary64 value that [float] can return for a text of digits, dots
    and a minus sign: the finite value [m * 2 ^ e], or an infinity. *)
Inductive t :=
| Finite (m e : Z)
| Inf (negative : bool).

Local Open Scope Z_scope.

(** Rounding of the rational [n / d] ([0 < d]) to the nearest integer,
    a tie going to the even one. *)
Definition round_half_even (n d : Z) : Z :=
  let q := n / d in
  let r := n mod d in
  match 2 * r ?= d with
  | Lt => q
  | Gt => q + 1
  | Eq => if Z.even q then q else q + 1
  end.

(** [floor (log2 (a / d))] for [0 < a] and [0 < d]. *)
Definition floor_log2 (a d : Z) : Z :=
  let l := Z.log2 a - Z.log2 d in
  let ge := if 0 <=? l then d * 2 ^ l <=? a else d <=? a * 2 ^ (- l) in
  if ge then l else l - 1.

(** The binary64 value nearest to the rational [n / d] ([0 < d]), a tie
    going to the even significand: 53 bits of precision, least exponent
    [-1074], overflow to an infinity from [2 ^ 1024] on. *)
Definition nearest (n d : Z) : t :=
  if n =? 0 then Finite 0 0
  else
    let a := Z.abs n in
    let q := Z.max (floor_log2 a d - 52) (-1074) in
    let m := if 0 <=? q then round_half_even a (d * 2 ^ q)
             else round_half_even (a * 2 ^ (- q)) d in
    if (m =? 0) then Finite 0 0
    else if 1024 <=? Z.log2 m + q then Inf (n <? 0)
    else Finite (Z.sgn n * m) q.

(** The digits of a text as a number; [None] for another character. *)
Definition digit_value (c : ascii) : option Z :=
  if Str.is_digit c then Some (Z.of_nat (nat_of_ascii c) - 48) else None.

Fixpoint digits_value (acc : Z) (s : string) : option Z :=
  match s with
  | EmptyString => Some acc
  | String c s' =>
      match digit_value c with
      | Some v => digits_value (10 * acc + v) s'
      | None => None
      end
  end.

(** [float(text)] for a text made of an optional minus sign, digits and
    dots: the digits with at most one dot among them and at least one
    digit give the nearest binary64 value; any other such text raises
    [ValueError], which is [None] here. *)
Definition of_string (text : string) : option t :=
  let '(negative, body) :=
    match text with
    | String "-" rest => (true, rest)
    | _ => (false, text)
    end in
  let '(int_part, rest) := Str.span Str.is_digit body in
  let frac_part :=
    match rest with
    | String "." f => Some f
    | EmptyString => Some EmptyString
    | _ => None
    end in
  match frac_part with
  | None => None
  | Some f =>
      match int_part, f with
      | EmptyString, EmptyString => None
      | _, _ =>
          match digits_value 0 (int_part +:+ f) with
          | None => None
          | Some a =>
              let n := if negative then - a else a in
              Some (nearest n (10 ^ Z.of_nat (String.length f)))
          end
      end
  end.

(** [x / 8] *)
Definition div8 (x : t) : t :=
  match x with
  | Inf s => Inf s
  | Finite m e =>
      if 0 <=? e - 3 then nearest (m * 2 ^ (e - 3)) 1
      else nearest m (2 ^ (3 - e))
  end.

(** The finite value [m * 2 ^ e] as the fraction [num m e / den e]. *)
Definition num (m e : Z) : Z := m * 2 ^ Z.max 0 e.
Definition den (e : Z) : Z := 2 ^ Z.max 0 (- e).

(** [round(x)]: the nearest integer, a tie going to the even one; [None]
    is the [OverflowError] for an infinity. *)
Definition round (x : t) : option Z :=
  match x with
  | Inf _ => None
  | Finite m e => Some (round_half_even (num m e) (den e))
  end.

End Float.

(** ** html_properties and html_element *)

Module Display.
(** Modelled from the spec: the enumeration of display modes. *)
Inductive t := inline | block | none.
End Display.

Module WhiteSpace.
(** Modelled from the spec: the enumeration of whitespace modes. *)
Inductive t := normal | pre.
End WhiteSpace.

Module HtmlElement.
(** Modelled from the spec: the element style record, with the fields the
    style mapper assigns. *)
Record t := mk {
  display : Display.t;
  whitespace : WhiteSpace.t;
  align : HorizontalAlignment.t;
  valign : VerticalAlignment.t;
  margin_before : Z;
  margin_after : Z;
  padding_inline : Z
}.
End HtmlElement.

(** ** Exceptions *)

Inductive exn := AttributeError | ValueError | KeyError | OverflowError.

(** What a call does: it returns a value, or it raises; for a call that
    works on an element the value is the element as the call leaves it. *)
Inductive outcome (A : Type) :=
| Returns (a : A)
| Raises (e : exn).
Arguments Returns {A} a.
Arguments Raises {A} e.

(** ** CssParse *)

Module CssParse.

Import HtmlElement.

(** One attempt of [RE_UNIT] at the start of [s]: the optional minus
    sign, the longest run of digits and dots, then the longest run of
    word characters. When no word character follows the run, the run
    gives back characters until what it gave back starts with a word
    character, which is a digit of the run. *)
Fixpoint last_digit_split (s : string) : option (string * string) :=
  match s with
  | EmptyString => None
  | String c s' =>
      match last_digit_split s' with
      | Some (p, q) => Some (String c p, q)
      | None => if Str.is_digit c then Some (EmptyString, s) else None
      end
  end.

Definition is_number_char (c : ascii) : bool :=
  Str.is_digit c || Ascii.eqb c "."%char.

Definition RE_UNIT_match (s : string) : option (string * string) :=
  let '(sign, rest) :=
    match s with
    | String "-" s' => (String "-" EmptyString, s')
    | _ => (EmptyString, s)
    end in
  let '(run, after) := Str.span is_number_char rest in
  match run with
  | EmptyString => None
  | String c0 run' =>
      match fst (Str.span Str.is_word after) with
      | String u us => Some (sign +:+ run, String u us)
      | EmptyString =>
          match last_digit_split run' with
          | Some (p, q) =>
              Some (sign +:+ String c0 p, fst (Str.span Str.is_word q))
          | None => None
          end
      end
  end.

(** [RE_UNIT.search(s)]: the groups of the leftmost match. *)
Fixpoint RE_UNIT_search (s : string) : option (string * string) :=
  match RE_UNIT_match s with
  | Some g => Some g
  | None =>
      match s with
      | EmptyString => None
      | String _ s' => RE_UNIT_search s'
      end
  end.

(** [unit not in ("em", "qem", "rem")] *)
Definition is_em_unit (unit : string) : bool :=
  Str.eqb unit "em" || Str.eqb unit "qem" || Str.eqb unit "rem".

(** [_get_em] *)
Definition _get_em (length : string) : outcome Z :=
  match RE_UNIT_search length with
  | None => Raises AttributeError
  | Some (number, unit) =>
      match Float.of_string number with
      | None => Raises ValueError
      | Some value =>
          let scaled := if is_em_unit unit then value else Float.div8 value in
          match Float.round scaled with
          | None => Raises OverflowError
          | Some n => Returns n
          end
      end
  end.

(** [with suppress(ValueError): <assign>(_get_em(value))] *)
Definition suppress_ValueError (value : string) (assign : Z -> t) (e : t)
  : outcome t :=
  match _get_em value with
  | Returns n => Returns (assign n)
  | Raises ValueError => Returns e
  | Raises x => Raises x
  end.

Definition attr_display (value : string) (e : t) : outcome t :=
  match display e with
  | Display.none => Returns e
  | _ =>
      let d := if Str.eqb value "block" then Display.block
               else if Str.eqb value "none" then Display.none
               else Display.inline in
      Returns (mk d (whitespace e) (align e) (valign e) (margin_before e)
                  (margin_after e) (padding_inline e))
  end.

Definition attr_white_space (value : string) (e : t) : outcome t :=
  let set w := mk (display e) w (align e) (valign e) (margin_before e)
                  (margin_after e) (padding_inline e) in
  if Str.eqb value "normal" || Str.eqb value "nowrap"
  then Returns (set WhiteSpace.normal)
  else if Str.eqb value "pre" || Str.eqb value "pre-line"
          || Str.eqb value "pre-wrap"
  then Returns (set WhiteSpace.pre)
  else Returns e.

Definition attr_margin_top (value : string) (e : t) : outcome t :=
  suppress_ValueError value
    (fun n => mk (display e) (whitespace e) (align e) (valign e) n
                 (margin_after e) (padding_inline e)) e.

Definition attr_margin_bottom (value : string) (e : t) : outcome t :=
  suppress_ValueError value
    (fun n => mk (display e) (whitespace e) (align e) (valign e)
                 (margin_before e) n (padding_inline e)) e.

Definition attr_padding_left (value : string) (e : t) : outcome t :=
  suppress_ValueError value
    (fun n => mk (display e) (whitespace e) (align e) (valign e)
                 (margin_before e) (margin_after e) n) e.

(** [HorizontalAlignment[value]], [None] being the [KeyError]. *)
Definition horizontal_alignment_of (value : string)
  : option HorizontalAlignment.t :=
  if Str.eqb value "left" then Some HorizontalAlignment.left
  else if Str.eqb value "right" then Some HorizontalAlignment.right
  else if Str.eqb value "center" then Some HorizontalAlignment.center
  else None.

(** [VerticalAlignment[value]], [None] being the [KeyError]. *)
Definition vertical_alignment_of (value : string)
  : option VerticalAlignment.t :=
  if Str.eqb value "top" then Some VerticalAlignment.top
  else if Str.eqb value "middle" then Some VerticalAlignment.middle
  else if Str.eqb value "bottom" then Some VerticalAlignment.bottom
  else None.

Definition attr_horizontal_align (value : string) (e : t) : outcome t :=
  match horizontal_alignment_of value with
  | Some a => Returns (mk (display e) (whitespace e) a (valign e)
                          (margin_before e) (margin_after e)
                          (padding_inline e))
  | None => Returns e
  end.

Definition attr_vertical_align (value : string) (e : t) : outcome t :=
  match vertical_alignment_of value with
  | Some v => Returns (mk (display e) (whitespace e) (align e) v
                          (margin_before e) (margin_after e)
                          (padding_inline e))
  | None => Returns e
  end.

Definition attr_margin_before := attr_margin_top.
Definition attr_margin_after := attr_margin_bottom.
Definition attr_padding_start := attr_padding_left.

(** The attributes of the class whose name starts with [attr_]. *)
Inductive method :=
| m_style | m_display | m_white_space | m_margin_top | m_margin_bottom
| m_padding_left | m_horizontal_align | m_vertical_align
| m_margin_before | m_margin_after | m_padding_start.

Definition methods : list (string * method) :=
  [("attr_style", m_style); ("attr_display", m_display);
   ("attr_white_space", m_white_space); ("attr_margin_top", m_margin_top);
   ("attr_margin_bottom", m_margin_bottom);
   ("attr_padding_left", m_padding_left);
   ("attr_horizontal_align", m_horizontal_align);
   ("attr_vertical_align", m_vertical_align);
   ("attr_margin_before", m_margin_before);
   ("attr_margin_after", m_margin_after);
   ("attr_padding_start", m_padding_start)].

(** [getattr(CssParse, name)], [None] being the [AttributeError]. *)
Definition getattr (name : string) : option method :=
  snd <$> List.find (fun entry => Str.eqb (fst entry) name) methods.

(** The name that [attr_style] looks up for a key. *)
Definition method_name (key : string) : string :=
  "attr_" +:+ Str.replace "-" "_" (Str.replace "-webkit-" "" key).

(** A run of [attr_style] on an element: it returns or raises, and [e] is
    the element as the run leaves it; or the nesting depth given to the
    run is used up, which is the [RecursionError] that the interpreter
    raises when calls nest deeper than it allows and that, like the
    overflow, nothing on the way out catches. *)
Inductive run :=
| Returned (e : t)
| Raised (x : exn) (e : t)
| OutOfFuel.

(** A handler raises before it assigns. *)
Definition run_handler (o : outcome t) (e : t) : run :=
  match o with
  | Returns e' => Returned e'
  | Raises x => Raised x e
  end.

(** The [try] block of [attr_style] for one directive; [style] is
    [attr_style] itself, one level deeper. *)
Definition apply_style (style : string -> t -> run)
    (key value : string) (e : t) : run :=
  match getattr (method_name key) with
  | None => Raised AttributeError e
  | Some m =>
      match m with
      | m_style => style value e
      | m_display => run_handler (attr_display value e) e
      | m_white_space => run_handler (attr_white_space value e) e
      | m_margin_top => run_handler (attr_margin_top value e) e
      | m_margin_bottom => run_handler (attr_margin_bottom value e) e
      | m_padding_left => run_handler (attr_padding_left value e) e
      | m_horizontal_align => run_handler (attr_horizontal_align value e) e
      | m_vertical_align => run_handler (attr_vertical_align value e) e
      | m_margin_before => run_handler (attr_margin_before value e) e
      | m_margin_after => run_handler (attr_margin_after value e) e
      | m_padding_start => run_handler (attr_padding_start value e) e
      end
  end.

(** The body of the loop for one directive: [continue] without a colon,
    else the [try] block with [except AttributeError: pass]. *)
Definition directive (style : string -> t -> run) (d : string) (e : t)
  : run :=
  if negb (Str.contains ":" d) then Returned e
  else
    let '(k, v) := Str.split_once ":" d in
    match apply_style style (Str.strip k) (Str.strip v) e with
    | Raised AttributeError e' => Returned e'
    | r => r
    end.

(** The loop over the directives. *)
Fixpoint directives (style : string -> t -> run)
    (ds : list string) (e : t) : run :=
  match ds with
  | [] => Returned e
  | d :: rest =>
      match directive style d e with
      | Returned e' => directives style rest e'
      | r => r
      end
  end.

Fixpoint attr_style_depth (depth : nat) (style_attribute : string) (e : t)
  : run :=
  match depth with
  | 0 => OutOfFuel
  | S depth' =>
      directives (attr_style_depth depth')
                 (Str.split ";" (Str.lower style_attribute)) e
  end.

(** [attr_style] where the interpreter allows more nested calls than the
    text can ask for: a nested style is shorter than the style it is in,
    so a depth of the length of the text is never used up. The runs under
    a smaller depth are those of [attr_style_depth]. *)
Definition attr_style (style_attribute : string) (e : t) : run :=
  attr_style_depth (S (String.length style_attribute)) style_attribute e.

End CssParse.

(** ** Attribute *)

Module Attribute.

Import CssParse HtmlElement.






End Attribute.

(** ** Texts of digits *)

(** Every character of a text is of a class. *)
Fixpoint all_chars (p : ascii -> bool) (s : string) : bool :=
  match s with
  | EmptyString => true
  | String c s' => p c && all_chars p s'
  end.

(** ** Sample cells and tables *)

Module Sample.

(** A cell whose text was written and not yet flushed. *)
Definition cell (text : string) : TableCell.t :=
  TableCell.mk [] text HorizontalAlignment.left VerticalAlignment.top
               None None 0.

(** One line, vertical alignment [middle]. *)
Definition middle_cell (line : string) : TableCell.t :=
  TableCell.mk [line] EmptyString HorizontalAlignment.left
               VerticalAlignment.middle None None 0.

(** Two lines in one block, centred. *)
Definition tall_cell : TableCell.t :=
  TableCell.mk [String "x" (String Str.nl "yyy")] EmptyString
               HorizontalAlignment.center VerticalAlignment.bottom
               None None 0.

Definition add_cells (tb : Table.t) (cs : list TableCell.t) : Table.t :=
  foldl Table.add_cell (Table.add_row tb) cs.

(** The 2x2 table with the texts a, bb / ccc, d. *)
Definition two_by_two : Table.t :=
  add_cells (add_cells (Table.init 0 " | ") [cell "a"; cell "bb"])
            [cell "ccc"; cell "d"].

(** Three rows, the second with one cell only. *)
Definition ragged : Table.t :=
  add_cells
    (add_cells
       (add_cells (Table.init 0 "|") [cell "a"; cell "bb"; tall_cell])
       [cell "wide"])
    [cell "d"; middle_cell "e"; cell "ffff"].

(** A row of two cells of two lines each. *)
Definition level_row : TableRow.t :=
  TableRow.mk
    [TableCell.mk ["a"; "b"] EmptyString HorizontalAlignment.left
                  VerticalAlignment.top None None 0;
     TableCell.mk ["c"; "d"] EmptyString HorizontalAlignment.left
                  VerticalAlignment.top None None 0]
    "|".

(** A cell with text whose width was set to [0]. *)
Definition zero_width_cell : TableCell.t :=
  TableCell.set_width
    (TableCell.mk ["abc"] EmptyString HorizontalAlignment.left
                  VerticalAlignment.top None None 0) 0.

End Sample.

(** ** The width query as the specification words it *)

(** [cellWidth] as the specification states it: the explicit width if one
    is set, otherwise the maximum length among the cell's lines (here [0]
    when there is no line). To be compared with [TableCell.width]. *)
Definition spec_cell_width (c : TableCell.t) : nat :=
  match TableCell._width c with
  | Some w => w
  | None =>
      foldr Nat.max 0
        (map Str.len (concat (map (Str.split Str.nl) (TableCell.blocks c))))
  end.

(** ** The rounding of lengths as the specification words it *)

(** Rounding of the rational [n / d] ([0 < d]) to the nearest integer with
    a tie going away from zero, which is how the specification states the
    rounding of [_get_em]. To be compared with [Float.round_half_even]. *)
Definition spec_round_half_away (n d : Z) : Z :=
  let q := (n / d)%Z in
  let r := (n mod d)%Z in
  match (2 * r ?= d)%Z with
  | Lt => q
  | Gt => (q + 1)%Z
  | Eq => if (0 <=? n)%Z then (q + 1)%Z else q
  end.

(** ** Sample elements and style texts *)

Module SampleStyle.

Definition element : HtmlElement.t :=
  HtmlElement.mk Display.inline WhiteSpace.normal HorizontalAlignment.left
                 VerticalAlignment.top 0 0 0.

Definition hidden : HtmlElement.t :=
  HtmlElement.mk Display.none WhiteSpace.normal HorizontalAlignment.left
                 VerticalAlignment.top 1 2 3.

(** [n * "9"] *)
Fixpoint nines (n : nat) : string :=
  match n with
  | 0 => EmptyString
  | S n' => String "9" (nines n')
  end.

(** A top margin of four hundred digits. *)
Definition huge_margin : string := "margin-top:" +:+ nines 400 +:+ "px".

End SampleStyle.

(** ** Predicates used to state the properties *)

Section Predicates.

Import TableCell.
Implicit Types (rs : list TableRow.t) (r : TableRow.t) (c : TableCell.t).
Implicit Types (tb : Table.t) (i j w h : nat) (W : nat -> nat) (idxs : list nat).

Definition one_line (b : string) : Prop := Str.contains Str.nl b = false.

(** A cell as [normalize_blocks] leaves it: nothing pending, at least one
    block, every block one visual line. *)
Definition clean c : Prop :=
  current_block c = EmptyString /\ blocks c ≠ [] /\ Forall one_line (blocks c).

(** The row once the columns of [idxs] got their widths [W]. *)
Definition set_columns W idxs r : TableRow.t :=
  TableRow.mk
    (imap (fun j c => if decide (j ∈ idxs) then set_width c (W j) else c)
          (TableRow.columns r))
    (TableRow.cell_separator r).

(** The text a row shows: the blocks of its cells and its separator. *)
Definition row_content r : list (list string) * string :=
  (map blocks (TableRow.columns r), TableRow.cell_separator r).

(** A row as the height pass leaves it. *)
Definition row_levelled r : Prop :=
  Forall clean (TableRow.columns r)
  /\ exists h, Forall (fun c => length (blocks c) = h) (TableRow.columns r).

(** A table as [get_text] leaves it: every row levelled, and every column
    [j] with a width [w] that each of its cells reports and has reached in
    each of its blocks. *)
Definition rendered tb : Prop :=
  Forall row_levelled (Table.rows tb)
  /\ forall j, exists w, forall r c,
       r ∈ Table.rows tb -> TableRow.columns r !! j = Some c ->
       width c = Some w /\ Forall (fun b => w <= Str.len b) (blocks c).

(** How [_set_column_width] relates a row before to the row after. *)
Definition column_pass_row rs r r2 : Prop :=
  TableRow.cell_separator r2 = TableRow.cell_separator r
  /\ length (TableRow.columns r2) = length (TableRow.columns r)
  /\ forall j c, TableRow.columns r !! j = Some c ->
       exists w, Table.max_column_width j rs = Some w
         /\ TableRow.columns r2 !! j = Some (set_width c w).

End Predicates.

Section StylePredicates.

Import CssParse HtmlElement.

(** The handlers that assign a length: the two margins and the padding,
    each under its two names. *)
Definition length_methods : list method :=
  [m_margin_top; m_margin_bottom; m_margin_before; m_margin_after;
   m_padding_left; m_padding_start].

(** The element a run leaves is hidden. *)
Definition leaves_hidden (r : run) : Prop :=
  match r with
  | Returned e | Raised _ e => display e = Display.none
  | OutOfFuel => True
  end.


End StylePredicates.

Section MorePredicates.

Import TableCell.

(** A cell whose blocks all have the width the cell reports. *)
Definition cell_exact (c : TableCell.t) : Prop :=
  exists w, width c = Some w /\ Forall (fun b => Str.len b = w) (blocks c).

(** A table whose cells had no width set, as [TableCell] creates them. *)
Definition unsized (tb : Table.t) : Prop :=
  forall r c, r ∈ Table.rows tb -> c ∈ TableRow.columns r -> _width c = None.

(** All the cells of a table, in the order of the rows and, within a
    row, of the columns. *)
Definition cells (tb : Table.t) : list TableCell.t :=
  concat (map TableRow.columns (Table.rows tb)).

End MorePredicates.
(** * Properties of the table geometry engine *)

(** ** [max] *)

Section PyMax.

Lemma foldl_max_ge_init (l : list nat) (x : nat) : x <= foldl Nat.max x l.
Proof.
  revert x; induction l as [|y l IH]; intros x; simpl; [lia|].
  etrans; [|apply IH]. lia.
Qed.

Lemma foldl_max_ge (l : list nat) (x y : nat) :
  y ∈ l -> y <= foldl Nat.max x l.
Proof.
  revert x; induction l as [|z l IH]; intros x Hy; simpl.
  - by apply elem_of_nil in Hy.
  - apply elem_of_cons in Hy as [->|Hy]; [|by apply IH].
    etrans; [|apply foldl_max_ge_init]. lia.
Qed.

Lemma foldl_max_elem (l : list nat) (x : nat) :
  foldl Nat.max x l ∈ x :: l.
Proof.
  revert x; induction l as [|z l IH]; intros x; simpl; [by left|].
  specialize (IH (Nat.max x z)).
  apply elem_of_cons in IH as [->|IH]; [|by do 2 right].
  destruct (Nat.max_spec x z) as [[_ ->]|[_ ->]]; [right|]; by left.
Qed.

Lemma py_max_ge (l : list nat) (m x : nat) :
  py_max l = Some m -> x ∈ l -> x <= m.
Proof.
  destruct l as [|y l]; simpl; [done|]. intros [= <-] Hx.
  apply elem_of_cons in Hx as [->|Hx].
  - apply foldl_max_ge_init.
  - by apply foldl_max_ge.
Qed.

Lemma py_max_elem (l : list nat) (m : nat) : py_max l = Some m -> m ∈ l.
Proof.
  destruct l as [|y l]; simpl; [done|]. intros [= <-].
  apply foldl_max_elem.
Qed.

Lemma py_max_is_Some (l : list nat) : l ≠ [] -> is_Some (py_max l).
Proof. destruct l; [done|]. simpl; eauto. Qed.

Lemma py_max_None (l : list nat) : py_max l = None -> l = [].
Proof. by destruct l. Qed.

(** The maximum is determined by being a member that bounds the rest. *)
Lemma py_max_unique (l : list nat) (m : nat) :
  m ∈ l -> (forall x, x ∈ l -> x <= m) -> py_max l = Some m.
Proof.
  intros Hm Hle.
  destruct (py_max l) as [m'|] eqn:E.
  - f_equal. apply Nat.le_antisymm.
    + apply Hle. by apply py_max_elem.
    + by eapply py_max_ge.
  - apply py_max_None in E. subst. by apply elem_of_nil in Hm.
Qed.

End PyMax.

(** ** Strings: lines, padding *)

Section Strings.

Implicit Types (s : string) (c : ascii).

Lemma len_app s1 s2 : Str.len (s1 +:+ s2) = Str.len s1 + Str.len s2.
Proof. unfold Str.len. induction s1; simpl; auto. Qed.

Lemma len_spaces n : Str.len (Str.spaces n) = n.
Proof. unfold Str.len. induction n; simpl; auto. Qed.

Lemma contains_app c s1 s2 :
  Str.contains c (s1 +:+ s2) = Str.contains c s1 || Str.contains c s2.
Proof.
  induction s1 as [|a s1 IH]; simpl; [done|].
  rewrite IH. by rewrite orb_assoc.
Qed.

Lemma contains_spaces n : Str.contains Str.nl (Str.spaces n) = false.
Proof. induction n; simpl; auto. Qed.

Lemma split_not_nil c s : Str.split c s ≠ [].
Proof.
  destruct s as [|a s]; simpl; [done|].
  destruct (Ascii.eqb a c); [done|]. by destruct (Str.split c s).
Qed.

(** A string without the separator is the single piece of its split. *)
Lemma split_single c s : Str.contains c s = false -> Str.split c s = [s].
Proof.
  induction s as [|a s IH]; simpl; [done|].
  intros [Ha Hs]%orb_false_iff. rewrite Ha, (IH Hs). done.
Qed.

(** No piece of a split contains the separator. *)
Lemma split_pieces c s p : p ∈ Str.split c s -> Str.contains c p = false.
Proof.
  revert p; induction s as [|a s IH]; simpl; intros p Hp.
  - apply list_elem_of_singleton in Hp. by subst.
  - destruct (Ascii.eqb a c) eqn:Ha.
    + apply elem_of_cons in Hp as [->|Hp]; [done|]. by apply IH.
    + destruct (Str.split c s) as [|h t] eqn:E.
      * by destruct (split_not_nil c s).
      * apply elem_of_cons in Hp as [->|Hp].
        -- simpl. rewrite Ha. apply IH. by left.
        -- apply IH. by right.
Qed.

Lemma format_len a w b : Str.len (py_format a w b) = Nat.max w (Str.len b).
Proof.
  unfold py_format. destruct (Nat.leb_spec w (Str.len b)) as [H|H]; [lia|].
  assert ((w - Str.len b) / 2 <= w - Str.len b)
    by (apply Nat.Div0.div_le_upper_bound; lia).
  destruct a; rewrite !len_app, !len_spaces; lia.
Qed.

Lemma format_wide a w b : w <= Str.len b -> py_format a w b = b.
Proof.
  intros H. unfold py_format.
  by destruct (Nat.leb_spec w (Str.len b)); [|lia].
Qed.

(** Formatting to the same width a second time changes nothing. *)
Lemma format_idem a w b :
  py_format a w (py_format a w b) = py_format a w b.
Proof. apply format_wide. rewrite format_len. lia. Qed.

Lemma format_no_nl a w b :
  Str.contains Str.nl b = false ->
  Str.contains Str.nl (py_format a w b) = false.
Proof.
  intros H. unfold py_format. destruct (w <=? Str.len b); [done|].
  destruct a; rewrite !contains_app, ?contains_spaces, H; done.
Qed.

Lemma len_0 s : Str.len s = 0 -> s = EmptyString.
Proof. by destruct s. Qed.

End Strings.

(** ** Cells *)

Section Cells.

Import TableCell.
Implicit Types (c : TableCell.t) (h w : nat).

Lemma lines_of_one_line (bs : list string) :
  Forall one_line bs -> concat (map (Str.split Str.nl) bs) = bs.
Proof.
  induction 1 as [|b bs Hb _ IH]; simpl; [done|].
  rewrite (split_single _ _ Hb), IH. done.
Qed.

Lemma lines_one_line (bs : list string) :
  Forall one_line (concat (map (Str.split Str.nl) bs)).
Proof.
  induction bs as [|b bs IH]; simpl; [constructor|].
  apply Forall_app; split; [|done].
  apply Forall_forall. intros p Hp. by eapply split_pieces.
Qed.

Lemma flush_inline_pending c : current_block (flush_inline c) = EmptyString.
Proof. unfold flush_inline. by destruct (current_block c) eqn:E. Qed.

Lemma flush_inline_clean c : current_block c = EmptyString -> flush_inline c = c.
Proof. unfold flush_inline. by intros ->. Qed.

Lemma normalize_fst c :
  fst (normalize_blocks c) = length (blocks (snd (normalize_blocks c))).
Proof. done. Qed.

Lemma normalize_clean c : clean (snd (normalize_blocks c)).
Proof.
  unfold normalize_blocks, clean; simpl.
  split; [apply flush_inline_pending|].
  pose proof (lines_one_line (blocks (flush_inline c))) as H.
  destruct (concat _); [|done].
  split; [done|]. by repeat constructor.
Qed.

Lemma normalize_of_clean c :
  clean c -> normalize_blocks c = (length (blocks c), c).
Proof.
  intros (Hp & Hne & Hl). unfold normalize_blocks.
  rewrite (flush_inline_clean _ Hp), (lines_of_one_line _ Hl).
  destruct c as [bs ? ? ? ? ? ?]; simpl in *. by destruct bs.
Qed.

Lemma normalize_align c : align (snd (normalize_blocks c)) = align c.
Proof. simpl. unfold flush_inline. by destruct (current_block c). Qed.

Lemma normalize_valign c : valign (snd (normalize_blocks c)) = valign c.
Proof. simpl. unfold flush_inline. by destruct (current_block c). Qed.

Lemma normalize_width c : _width (snd (normalize_blocks c)) = _width c.
Proof. simpl. unfold flush_inline. by destruct (current_block c). Qed.

Lemma half_split n : n / 2 + (n + 1) / 2 = n.
Proof.
  pose proof (Nat.div_mod_eq n 2). pose proof (Nat.div_mod_eq (n + 1) 2).
  pose proof (Nat.mod_upper_bound n 2). pose proof (Nat.mod_upper_bound (n + 1) 2).
  destruct (Nat.Even_or_Odd n) as [[k Hk]|[k Hk]]; subst n.
  - replace (2 * k + 1) with (1 + k * 2) in * by lia.
    replace (2 * k) with (k * 2) in * by lia.
    rewrite Nat.div_add, Nat.div_mul; simpl; lia.
  - replace (2 * k + 1 + 1) with ((k + 1) * 2) in * by lia.
    replace (2 * k + 1) with (1 + k * 2) in * by lia.
    rewrite Nat.div_add, Nat.div_mul; simpl; lia.
Qed.

Lemma set_height_ge c h : h <= length (blocks c) -> set_height c h = c.
Proof.
  intros H. unfold set_height.
  by destruct (Nat.ltb_spec (length (blocks c)) h); [lia|].
Qed.

Lemma set_height_length c h :
  length (blocks (set_height c h)) = Nat.max (length (blocks c)) h.
Proof.
  unfold set_height.
  destruct (Nat.ltb_spec (length (blocks c)) h) as [H|H]; [|lia].
  pose proof (half_split (h - length (blocks c))).
  destruct (valign c); cbn [blocks];
    rewrite ?length_app, ?length_replicate; lia.
Qed.

Lemma set_height_clean c h : clean c -> clean (set_height c h).
Proof.
  intros (Hp & Hne & Hl). unfold set_height.
  assert (forall n, Forall one_line (replicate n EmptyString)) as Hr.
  { intros n. apply Forall_replicate. done. }
  destruct (length (blocks c) <? h); [|done].
  destruct (valign c); (split; [done|split]); simpl;
    rewrite ?Forall_app; auto;
    destruct (blocks c); simpl; try done;
    by destruct (replicate _ _).
Qed.

Lemma set_height_fields c h :
  align (set_height c h) = align c /\ _width (set_height c h) = _width c.
Proof.
  unfold set_height. destruct (_ <? _); [|done]. by destruct (valign c).
Qed.

Lemma set_width_clean c w : clean c -> clean (set_width c w).
Proof.
  intros (Hp & Hne & Hl). split; [done|]. split; simpl.
  - by destruct (blocks c).
  - apply Forall_map. eapply Forall_impl; [exact Hl|].
    intros b Hb. by apply format_no_nl.
Qed.

Lemma set_width_length c w :
  length (blocks (set_width c w)) = length (blocks c).
Proof. simpl. by rewrite length_map. Qed.

End Cells.

(** ** Rows: the height pass and the text of a row *)

Section Rows.

Import TableCell.
Implicit Types (r : TableRow.t) (c : TableCell.t).

Lemma max_row_height_is_max r :
  TableRow.columns r ≠ [] ->
  py_max (map (fun c => fst (normalize_blocks c)) (TableRow.columns r))
  = Some (Table.max_row_height r).
Proof.
  intros Hne. unfold Table.max_row_height.
  destruct (TableRow.columns r) as [|c cs] eqn:E; [done|].
  destruct (py_max_is_Some (map (fun c => fst (normalize_blocks c)) (c :: cs)))
    as [m Hm]; [done|].
  by rewrite Hm.
Qed.

Lemma max_row_height_ge r c :
  c ∈ TableRow.columns r ->
  length (blocks (snd (normalize_blocks c))) <= Table.max_row_height r.
Proof.
  intros Hc.
  assert (TableRow.columns r ≠ []) as Hne.
  { intros E. rewrite E in Hc. by apply elem_of_nil in Hc. }
  eapply py_max_ge; [by apply max_row_height_is_max|].
  rewrite <- normalize_fst.
  apply list_elem_of_In, in_map_iff. exists c. by rewrite <- list_elem_of_In.
Qed.

(** After the height pass every cell of the row is clean and has the
    row's height. *)
Lemma row_height_pass_cells r c' :
  c' ∈ TableRow.columns (Table.row_height_pass r) ->
  clean c' /\ length (blocks c') = Table.max_row_height r.
Proof.
  unfold Table.row_height_pass; cbn [TableRow.columns].
  intros (c & <- & Hc)%list_elem_of_In%in_map_iff.
  apply list_elem_of_In in Hc. split.
  - apply set_height_clean, normalize_clean.
  - rewrite set_height_length. pose proof (max_row_height_ge r c Hc). lia.
Qed.

Lemma nth_seq_map {A} (d : A) (l : list A) :
  map (fun i => nth i l d) (seq 0 (length l)) = l.
Proof.
  induction l as [|x l IH]; simpl; [done|].
  f_equal. rewrite <- seq_shift, map_map. exact IH.
Qed.

Lemma zip_with_cons_map {A B} (f : B -> A) (g : B -> list A) (s : list B) :
  zip_with cons (map f s) (map g s) = map (fun i => f i :: g i) s.
Proof. induction s; simpl; congruence. Qed.

(** [zip] over lists of one common length [h] is the transposition: the
    tuple of index [i] holds the element of index [i] of every list. *)
Lemma py_zip_uniform {A} (d : A) (ls : list (list A)) (h : nat) :
  ls ≠ [] -> Forall (fun l => length l = h) ls ->
  py_zip ls = map (fun i => map (fun l => nth i l d) ls) (seq 0 h).
Proof.
  induction ls as [|l rest IH]; [done|]. intros _ Hall.
  apply Forall_cons in Hall as [Hl Hrest].
  destruct rest as [|l' rest'].
  - simpl. rewrite <- (nth_seq_map d l) at 1. rewrite Hl, map_map. done.
  - change (py_zip (l :: l' :: rest'))
      with (zip_with cons l (py_zip (l' :: rest'))).
    rewrite IH by done.
    rewrite <- (nth_seq_map d l) at 1. rewrite Hl.
    by rewrite (zip_with_cons_map (fun i => nth i l d)).
Qed.

End Rows.

(** ** Columns: the width pass *)

Section Columns.

Import TableCell.
Implicit Types (rs : list TableRow.t) (r : TableRow.t) (c : TableCell.t).
Implicit Types (i j w : nat).

Lemma width_is_Some c : blocks c ≠ [] -> is_Some (width c).
Proof.
  intros Hne. unfold width.
  assert (is_Some (py_max (map Str.len
            (concat (map (Str.split Str.nl) (blocks c)))))) as Hs.
  { apply py_max_is_Some. destruct (blocks c) as [|b bs]; [done|]. simpl.
    pose proof (split_not_nil Str.nl b).
    by destruct (Str.split Str.nl b). }
  destruct (_width c) as [[|w]|]; eauto.
Qed.

Lemma set_column_in_row_len i w r :
  TableRow.len (Table.set_column_in_row i w r) = TableRow.len r.
Proof.
  unfold Table.set_column_in_row. case_decide; [|done].
  unfold TableRow.len; simpl. apply length_alter.
Qed.

Lemma set_column_in_row_sep i w r :
  TableRow.cell_separator (Table.set_column_in_row i w r)
  = TableRow.cell_separator r.
Proof. unfold Table.set_column_in_row. by case_decide. Qed.

Lemma set_column_in_row_lookup i w r j :
  TableRow.columns (Table.set_column_in_row i w r) !! j
  = if decide (i = j)
    then (fun c => set_width c w) <$> TableRow.columns r !! j
    else TableRow.columns r !! j.
Proof.
  unfold Table.set_column_in_row. case_decide as Hlt; simpl.
  - case_decide as Hij.
    + subst. apply list_lookup_alter_eq.
    + by apply list_lookup_alter_ne.
  - case_decide as Hij; [|done]. subst j.
    rewrite (lookup_ge_None_2 (TableRow.columns r) i); [done|].
    unfold TableRow.len in Hlt. lia.
Qed.

(** Assigning column [i] leaves the maximum of every other column as it
    was. *)
Lemma max_column_width_set_column i j w rs :
  i ≠ j ->
  Table.max_column_width j (Table.set_column i w rs)
  = Table.max_column_width j rs.
Proof.
  intros Hij. unfold Table.max_column_width, Table.set_column. f_equal.
  induction rs as [|r rs IH]; [done|].
  cbn [map]. rewrite !filter_cons, set_column_in_row_len.
  case_decide; [|done].
  cbn [mapM]. rewrite IH. f_equal.
  unfold Table.cell_width_at. rewrite set_column_in_row_lookup.
  by case_decide.
Qed.

Lemma max_column_width_is_Some j rs :
  (exists r, r ∈ rs /\ j < TableRow.len r) ->
  (forall r c, r ∈ rs -> c ∈ TableRow.columns r -> is_Some (width c)) ->
  is_Some (Table.max_column_width j rs).
Proof.
  intros (r0 & Hr0 & Hlen) Hw. unfold Table.max_column_width.
  destruct (mapM (Table.cell_width_at j)
              (filter (fun r => j < TableRow.len r) rs)) as [ws|] eqn:E.
  - simpl. apply py_max_is_Some. intros ->.
    apply length_mapM in E. simpl in E.
    assert (r0 ∈ filter (fun r => j < TableRow.len r) rs) as Hin
      by by apply list_elem_of_filter.
    destruct (filter _ rs); [by apply elem_of_nil in Hin|done].
  - exfalso. assert (is_Some (mapM (Table.cell_width_at j)
              (filter (fun r => j < TableRow.len r) rs))) as [? Hs];
      [|congruence].
    apply mapM_is_Some_2, Forall_forall.
    intros r [Hlt Hr]%list_elem_of_filter. simpl.
    unfold Table.cell_width_at.
    destruct (lookup_lt_is_Some_2 (TableRow.columns r) j Hlt) as [c Hc].
    rewrite Hc. simpl. apply (Hw r c Hr).
    by eapply list_elem_of_lookup_2.
Qed.

(** The value of [max_column_width] is the width of a cell present at
    the index, and no cell present at the index is wider. *)
Lemma max_column_width_spec j rs w :
  Table.max_column_width j rs = Some w ->
  (exists r c, r ∈ rs /\ TableRow.columns r !! j = Some c /\ width c = Some w)
  /\ (forall r c w', r ∈ rs -> TableRow.columns r !! j = Some c ->
                     width c = Some w' -> w' <= w).
Proof.
  unfold Table.max_column_width.
  intros (ws & Hws & Hmax)%bind_Some. apply mapM_Some_1 in Hws. split.
  - apply py_max_elem, list_elem_of_lookup_1 in Hmax as [k Hk].
    destruct (Forall2_lookup_r _ _ _ _ _ Hws Hk) as (r & Hr & Hf).
    apply list_elem_of_lookup_2, list_elem_of_filter in Hr as [_ Hr].
    unfold Table.cell_width_at in Hf.
    apply bind_Some in Hf as (c & Hc & Hwc). eauto.
  - intros r c w' Hr Hc Hw'.
    assert (r ∈ filter (fun r => j < TableRow.len r) rs) as Hin.
    { apply list_elem_of_filter. split; [|done].
      by eapply lookup_lt_Some. }
    apply list_elem_of_lookup_1 in Hin as [k Hk].
    destruct (Forall2_lookup_l _ _ _ _ _ Hws Hk) as (y & Hy & Hf).
    unfold Table.cell_width_at in Hf. rewrite Hc in Hf. simpl in Hf.
    eapply py_max_ge; [done|].
    replace w' with y by congruence. by eapply list_elem_of_lookup_2.
Qed.

End Columns.

Section ColumnLoop.

Import TableCell.
Implicit Types (rs : list TableRow.t) (r : TableRow.t) (c : TableCell.t).
Implicit Types (i j w : nat) (W : nat -> nat) (idxs : list nat).

Lemma set_columns_nil W r : set_columns W [] r = r.
Proof.
  destruct r as [cs sep]. unfold set_columns; simpl. f_equal.
  apply list_eq. intros j. rewrite list_lookup_imap.
  by destruct (cs !! j).
Qed.

Lemma set_columns_cons W idxs i r :
  i ∉ idxs ->
  set_columns W idxs (Table.set_column_in_row i (W i) r)
  = set_columns W (i :: idxs) r.
Proof.
  intros Hni. unfold set_columns. rewrite set_column_in_row_sep. f_equal.
  apply list_eq. intros j.
  rewrite !list_lookup_imap, set_column_in_row_lookup.
  destruct (TableRow.columns r !! j) as [c|];
    [|by destruct (decide (i = j))].
  destruct (decide (i = j)) as [->|Hij];
    cbn [fmap option_fmap option_map].
  - rewrite (decide_False (P := j ∈ idxs)) by done.
    rewrite (decide_True (P := j ∈ j :: idxs)) by by left. done.
  - destruct (decide (j ∈ idxs)) as [Hj|Hj].
    + rewrite (decide_True (P := j ∈ i :: idxs)) by by right. done.
    + rewrite (decide_False (P := j ∈ i :: idxs)); [done|].
      intros [->|?]%elem_of_cons; done.
Qed.

(** The loop over the column indices, as one assignment per cell. *)
Lemma column_loop_spec W idxs rs :
  NoDup idxs ->
  (forall i, i ∈ idxs -> Table.max_column_width i rs = Some (W i)) ->
  Table.column_loop idxs rs = Some (map (set_columns W idxs) rs).
Proof.
  revert rs. induction idxs as [|i idxs IH]; intros rs Hnd HW.
  - cbn [Table.column_loop]. f_equal.
    rewrite (map_ext _ id); [by rewrite map_id|].
    intros r. apply set_columns_nil.
  - apply NoDup_cons in Hnd as [Hni Hnd].
    cbn [Table.column_loop]. rewrite (HW i) by by left. simpl.
    rewrite IH; [|done|].
    + f_equal. unfold Table.set_column. rewrite map_map.
      apply map_ext. intros r. by apply set_columns_cons.
    + intros j Hj. rewrite max_column_width_set_column.
      * apply HW. by right.
      * intros ->. done.
Qed.

Lemma py_max_len_bound rs n r :
  py_max (map TableRow.len rs) = Some n -> r ∈ rs -> TableRow.len r <= n.
Proof.
  intros Hn Hr. eapply py_max_ge; [done|].
  apply list_elem_of_In, in_map, list_elem_of_In, Hr.
Qed.

Lemma py_max_len_witness rs n j :
  py_max (map TableRow.len rs) = Some n -> j < n ->
  exists r, r ∈ rs /\ j < TableRow.len r.
Proof.
  intros Hn Hj. apply py_max_elem, list_elem_of_In, in_map_iff in Hn
    as (r & Hlen & Hr).
  exists r. rewrite <- list_elem_of_In in Hr. split; [done|lia].
Qed.

(** [_set_column_width] on a table with at least one row whose cells all
    have a width: it returns, the shape is kept, and the cell at column
    [j] of every row that has the column is assigned the maximum of that
    column. *)
Lemma set_column_width_general (tb : Table.t) :
  Table.rows tb ≠ [] ->
  (forall r c, r ∈ Table.rows tb -> c ∈ TableRow.columns r ->
               is_Some (width c)) ->
  exists tb2,
    Table._set_column_width tb = Some tb2
    /\ Table.left_margin_len tb2 = Table.left_margin_len tb
    /\ Table.cell_separator tb2 = Table.cell_separator tb
    /\ Forall2
         (fun r r2 =>
            TableRow.cell_separator r2 = TableRow.cell_separator r
            /\ length (TableRow.columns r2) = length (TableRow.columns r)
            /\ forall j c, TableRow.columns r !! j = Some c ->
                 exists w, Table.max_column_width j (Table.rows tb) = Some w
                   /\ TableRow.columns r2 !! j = Some (set_width c w))
         (Table.rows tb) (Table.rows tb2).
Proof.
  intros Hne Hw. unfold Table._set_column_width.
  destruct (py_max_is_Some (map TableRow.len (Table.rows tb))) as [n Hn].
  { by destruct (Table.rows tb). }
  rewrite Hn. simpl.
  set (W := fun j => default 0 (Table.max_column_width j (Table.rows tb))).
  assert (forall j, j < n ->
            Table.max_column_width j (Table.rows tb) = Some (W j)) as HW.
  { intros j Hj. unfold W.
    destruct (max_column_width_is_Some j (Table.rows tb)) as [w ->];
      [by eapply py_max_len_witness|done|done]. }
  rewrite (column_loop_spec W).
  2: apply NoDup_seq.
  2: { intros i [_ Hi]%elem_of_seq. apply HW. lia. }
  simpl. eexists. split; [done|]. do 2 (split; [done|]). simpl.
  apply Forall2_same_length_lookup. split; [by rewrite length_map|].
  intros k r r2 Hr Hr2.
  change (map ?f ?l) with (f <$> l) in Hr2.
  rewrite list_lookup_fmap, Hr in Hr2. simpl in Hr2.
  injection Hr2 as <-. unfold set_columns; simpl.
  split; [done|]. split; [apply length_imap|].
  intros j c Hc.
  assert (j < n) as Hj.
  { apply lookup_lt_Some in Hc.
    pose proof (py_max_len_bound _ _ r Hn (list_elem_of_lookup_2 _ _ _ Hr)).
    unfold TableRow.len in *. lia. }
  exists (W j). split; [by apply HW|].
  rewrite list_lookup_imap, Hc. simpl.
  rewrite decide_True; [done|]. apply elem_of_seq. lia.
Qed.

End ColumnLoop.

(** ** Rendering a second time *)

Section Rendered.

Import TableCell.
Implicit Types (rs : list TableRow.t) (r : TableRow.t) (c : TableCell.t).
Implicit Types (tb : Table.t) (i j w h : nat).

Lemma get_text_content r r' :
  row_content r = row_content r' -> TableRow.get_text r = TableRow.get_text r'.
Proof.
  unfold row_content, TableRow.get_text. intros [= Hb Hs]. by rewrite Hb, Hs.
Qed.

Lemma row_height_pass_levelled r : row_levelled (Table.row_height_pass r).
Proof.
  split.
  - apply Forall_forall. intros c Hc.
    by destruct (row_height_pass_cells _ _ Hc).
  - exists (Table.max_row_height r). apply Forall_forall. intros c Hc.
    by destruct (row_height_pass_cells _ _ Hc).
Qed.

(** The height pass changes nothing in a levelled row. *)
Lemma row_height_pass_fixed r : row_levelled r -> Table.row_height_pass r = r.
Proof.
  intros [Hclean [h Hh]]. destruct r as [cs sep]; simpl in *.
  unfold Table.row_height_pass;
    cbn [TableRow.columns TableRow.cell_separator]. f_equal.
  rewrite <- (map_id cs) at 2. apply map_ext_in. intros c Hc.
  apply list_elem_of_In in Hc.
  pose proof (proj1 (Forall_forall _ _) Hclean c Hc) as Hcc.
  rewrite (normalize_of_clean c Hcc). simpl.
  apply set_height_ge.
  assert (Table.max_row_height (TableRow.mk cs sep) = h) as ->; [|
    by rewrite (proj1 (Forall_forall _ _) Hh c Hc)].
  unfold Table.max_row_height; cbn [TableRow.columns].
  destruct cs as [|c0 cs0] eqn:E; [by apply elem_of_nil in Hc|].
  rewrite <- E in *.
  rewrite (py_max_unique _ h); [done| |].
  - apply list_elem_of_In, in_map_iff. exists c.
    rewrite (normalize_of_clean c Hcc). simpl.
    split; [by apply (proj1 (Forall_forall _ _) Hh)|by apply list_elem_of_In].
  - intros x (c' & <- & Hc')%list_elem_of_In%in_map_iff.
    apply list_elem_of_In in Hc'.
    rewrite (normalize_of_clean c');
      [|by apply (proj1 (Forall_forall _ _) Hclean)].
    simpl. by rewrite (proj1 (Forall_forall _ _) Hh c' Hc').
Qed.

Lemma set_row_height_fixed tb :
  Forall row_levelled (Table.rows tb) -> Table._set_row_height tb = tb.
Proof.
  intros H. destruct tb as [rs m sep].
  unfold Table._set_row_height, Table.with_rows; simpl in *. f_equal.
  rewrite <- (map_id rs) at 2. apply map_ext_in. intros r Hr.
  apply row_height_pass_fixed, (proj1 (Forall_forall _ _) H).
  by apply list_elem_of_In.
Qed.

(** The width a cell reports once a width at least its own was set. *)
Lemma width_set_width c w x :
  width c = Some x -> x <= w -> width (set_width c w) = Some w.
Proof.
  intros Hx Hle. destruct w as [|w]; [|done].
  assert (x = 0) as -> by lia.
  unfold width in *; cbn [set_width _width blocks].
  assert (map (py_format (align c) 0) (blocks c) = blocks c) as ->.
  { rewrite <- (map_id (blocks c)) at 2. apply map_ext.
    intros b. apply format_wide. lia. }
  by destruct (_width c) as [[|k]|].
Qed.

Lemma set_width_reached c w :
  Forall (fun b => w <= Str.len b) (blocks (set_width c w)).
Proof.
  cbn [set_width blocks]. apply Forall_map, Forall_forall. intros b _.
  rewrite format_len. lia.
Qed.

Lemma set_width_again c w :
  Forall (fun b => w <= Str.len b) (blocks c) ->
  blocks (set_width c w) = blocks c.
Proof.
  intros H. cbn [set_width blocks].
  rewrite <- (map_id (blocks c)) at 2. apply map_ext_in.
  intros b Hb. apply format_wide.
  by apply (proj1 (Forall_forall _ _) H), list_elem_of_In.
Qed.

End Rendered.

Section Render.

Import TableCell.
Implicit Types (rs : list TableRow.t) (r : TableRow.t) (c : TableCell.t).
Implicit Types (tb : Table.t) (i j k w h : nat).

Lemma lookup_same_length {A B} (l : list A) (l' : list B) i :
  length l = length l' ->
  (exists x y, l !! i = Some x /\ l' !! i = Some y)
  \/ (l !! i = None /\ l' !! i = None).
Proof.
  intros Hlen. destruct (l !! i) as [x|] eqn:E.
  - left. destruct (lookup_lt_is_Some_2 l' i) as [y Hy]; [|by eauto].
    rewrite <- Hlen. by eapply lookup_lt_Some.
  - right. split; [done|]. apply lookup_ge_None_2.
    rewrite <- Hlen. by apply lookup_ge_None_1.
Qed.

Lemma set_row_height_cells tb r c :
  r ∈ Table.rows (Table._set_row_height tb) -> c ∈ TableRow.columns r ->
  clean c.
Proof.
  unfold Table._set_row_height; simpl.
  intros (r0 & <- & _)%list_elem_of_In%in_map_iff Hc.
  by destruct (row_height_pass_cells _ _ Hc).
Qed.

Lemma get_text_rows tb :
  Table.rows tb ≠ [] ->
  Table.get_text tb
  = tb2 ← Table._set_column_width (Table._set_row_height tb);
    Some (Str.join Str.NL (map TableRow.get_text (Table.rows tb2))
          +:+ Str.NL, tb2).
Proof. unfold Table.get_text. by destruct (Table.rows tb). Qed.

Lemma same_content_same_text (l l' : list TableRow.t) :
  map row_content l = map row_content l' ->
  map TableRow.get_text l = map TableRow.get_text l'.
Proof.
  revert l'. induction l as [|x l IH]; intros [|y l'] H; try done.
  cbn [map] in *.
  assert (row_content x = row_content y) as Hx by congruence.
  assert (map row_content l = map row_content l') as Hl by congruence.
  f_equal; [by apply get_text_content|by apply IH].
Qed.

(** The two passes of [get_text] return on every table with a row. *)
Lemma passes_return tb :
  Table.rows tb ≠ [] ->
  exists tb2,
    Table._set_column_width (Table._set_row_height tb) = Some tb2
    /\ Forall2 (column_pass_row (Table.rows (Table._set_row_height tb)))
         (Table.rows (Table._set_row_height tb)) (Table.rows tb2).
Proof.
  intros Hne.
  destruct (set_column_width_general (Table._set_row_height tb))
    as (tb2 & H2 & _ & _ & HF).
  - unfold Table._set_row_height; simpl. by destruct (Table.rows tb).
  - intros r c Hr Hc. apply width_is_Some.
    by destruct (set_row_height_cells _ _ _ Hr Hc) as (_ & ? & _).
  - by exists tb2.
Qed.

Lemma column_pass_rendered tb1 tb2 :
  Forall row_levelled (Table.rows tb1) ->
  Forall2 (column_pass_row (Table.rows tb1)) (Table.rows tb1) (Table.rows tb2) ->
  rendered tb2.
Proof.
  intros Hlev HF.
  apply Forall2_same_length_lookup in HF as [Hlen HF]. split.
  - apply Forall_lookup. intros k r2 Hr2.
    destruct (lookup_same_length (Table.rows tb1) (Table.rows tb2) k Hlen)
      as [(r1 & r2' & Hr1 & Hr2')|[_ ?]]; [|congruence].
    assert (r2' = r2) as -> by congruence.
    destruct (HF k r1 r2 Hr1 Hr2) as (_ & Hl & Hcells).
    destruct (Forall_lookup_1 _ _ _ _ Hlev Hr1) as [Hclean [h Hh]].
    assert (forall j c2, TableRow.columns r2 !! j = Some c2 ->
              exists c1 w, TableRow.columns r1 !! j = Some c1
                /\ c2 = set_width c1 w) as Hback.
    { intros j c2 Hc2.
      destruct (lookup_same_length (TableRow.columns r1)
                  (TableRow.columns r2) j (eq_sym Hl))
        as [(c1 & c2' & Hc1 & Hc2')|[_ ?]]; [|congruence].
      destruct (Hcells j c1 Hc1) as (w & _ & Hw).
      exists c1, w. split; [done|congruence]. }
    split.
    + apply Forall_lookup. intros j c2 Hc2.
      destruct (Hback j c2 Hc2) as (c1 & w & Hc1 & ->).
      apply set_width_clean. by eapply Forall_lookup_1.
    + exists h. apply Forall_lookup. intros j c2 Hc2.
      destruct (Hback j c2 Hc2) as (c1 & w & Hc1 & ->).
      rewrite set_width_length.
      by apply (Forall_lookup_1 _ _ _ _ Hh Hc1).
  - intros j.
    exists (default 0 (Table.max_column_width j (Table.rows tb1))).
    intros r2 c2 [k Hr2]%list_elem_of_lookup_1 Hc2.
    destruct (lookup_same_length (Table.rows tb1) (Table.rows tb2) k Hlen)
      as [(r1 & r2' & Hr1 & Hr2')|[_ ?]]; [|congruence].
    assert (r2' = r2) as -> by congruence.
    destruct (HF k r1 r2 Hr1 Hr2) as (_ & Hl & Hcells).
    destruct (lookup_same_length (TableRow.columns r1)
                (TableRow.columns r2) j (eq_sym Hl))
      as [(c1 & c2' & Hc1 & Hc2')|[_ ?]]; [|congruence].
    destruct (Hcells j c1 Hc1) as (w & Hw & Hset).
    assert (c2 = set_width c1 w) as -> by congruence.
    rewrite Hw. simpl. split; [|apply set_width_reached].
    destruct (Forall_lookup_1 _ _ _ _ Hlev Hr1) as [Hclean _].
    destruct (width_is_Some c1) as [x Hx].
    { by destruct (Forall_lookup_1 _ _ _ _ Hclean Hc1) as (_ & ? & _). }
    apply (width_set_width c1 w x Hx).
    apply (proj2 (max_column_width_spec j _ w Hw) r1 c1 x); [|done..].
    by eapply list_elem_of_lookup_2.
Qed.

(** On a rendered table the width pass returns and leaves the blocks of
    every cell as they are. *)
Lemma column_pass_again tb2 :
  Table.rows tb2 ≠ [] -> rendered tb2 ->
  exists tb3, Table._set_column_width tb2 = Some tb3
    /\ map row_content (Table.rows tb3) = map row_content (Table.rows tb2).
Proof.
  intros Hne [Hlev Hcols].
  destruct (set_column_width_general tb2) as (tb3 & H3 & _ & _ & HF);
    [done| |].
  { intros r c Hr [j Hj]%list_elem_of_lookup_1.
    destruct (Hcols j) as [w Hw]. destruct (Hw r c Hr Hj) as [-> _]. eauto. }
  exists tb3. split; [done|].
  apply Forall2_same_length_lookup in HF as [Hlen HF].
  change (row_content <$> Table.rows tb3 = row_content <$> Table.rows tb2).
  apply list_eq. intros k. rewrite !list_lookup_fmap.
  destruct (lookup_same_length (Table.rows tb2) (Table.rows tb3) k Hlen)
    as [(r2 & r3 & Hr2 & Hr3)|[-> ->]]; [|done].
  rewrite Hr2, Hr3. simpl. f_equal.
  destruct (HF k r2 r3 Hr2 Hr3) as (Hsep & Hl & Hcells).
  unfold row_content. rewrite Hsep. f_equal.
  change (blocks <$> TableRow.columns r3 = blocks <$> TableRow.columns r2).
  apply list_eq. intros j. rewrite !list_lookup_fmap.
  destruct (lookup_same_length (TableRow.columns r2)
              (TableRow.columns r3) j (eq_sym Hl))
    as [(c2 & c3 & Hc2 & Hc3)|[-> ->]]; [|done].
  destruct (Hcells j c2 Hc2) as (w' & Hw' & Hset).
  rewrite Hc2, Hset. simpl. f_equal.
  destruct (Hcols j) as [w Hw].
  pose proof (list_elem_of_lookup_2 _ _ _ Hr2) as Hin2.
  destruct (proj1 (max_column_width_spec j _ w' Hw')) as (r & c & Hr & Hc & Hwc).
  destruct (Hw r c Hr Hc) as [Hwc' _].
  assert (w' = w) as -> by congruence.
  apply set_width_again. by destruct (Hw r2 c2 Hin2 Hc2).
Qed.

End Render.

(** ** Joining and splitting *)

Section JoinSplit.

Implicit Types (s sep : string) (l : list string).

Lemma append_cons (a : ascii) s1 s2 :
  String a s1 +:+ s2 = String a (s1 +:+ s2).
Proof. reflexivity. Qed.

Lemma append_nil_r s : s +:+ EmptyString = s.
Proof.
  induction s as [|a s IH]; [done|]. by rewrite append_cons, IH.
Qed.

Lemma append_assoc s1 s2 s3 : (s1 +:+ s2) +:+ s3 = s1 +:+ (s2 +:+ s3).
Proof.
  induction s1 as [|a s1 IH]; [done|]. by rewrite !append_cons, IH.
Qed.

Lemma join_cons sep s l :
  l ≠ [] -> Str.join sep (s :: l) = s +:+ sep +:+ Str.join sep l.
Proof. by destruct l. Qed.

Lemma join_app sep l1 l2 :
  l1 ≠ [] -> l2 ≠ [] ->
  Str.join sep (l1 ++ l2) = Str.join sep l1 +:+ sep +:+ Str.join sep l2.
Proof.
  intros H1 H2. induction l1 as [|x l1 IH]; [done|].
  destruct l1 as [|y l1].
  - simpl. by destruct l2.
  - change ((x :: y :: l1) ++ l2) with (x :: ((y :: l1) ++ l2)).
    rewrite join_cons by done. rewrite IH by done.
    rewrite (join_cons sep x (y :: l1)) by done.
    by rewrite !append_assoc.
Qed.

Lemma join_cons_char sep a h t :
  Str.join sep (String a h :: t) = String a (Str.join sep (h :: t)).
Proof. by destruct t. Qed.

(** Joining the pieces of a split with the separator gives the text
    back. *)
Lemma join_split s : Str.join Str.NL (Str.split Str.nl s) = s.
Proof.
  induction s as [|a s IH]; [done|]. cbn [Str.split].
  destruct (Ascii.eqb_spec a Str.nl) as [->|Hne].
  - rewrite join_cons by apply split_not_nil. by rewrite IH.
  - destruct (Str.split Str.nl s) as [|h t] eqn:E.
    + by destruct (split_not_nil Str.nl s).
    + by rewrite join_cons_char, IH.
Qed.

Lemma lines_not_nil (bs : list string) :
  bs ≠ [] -> concat (map (Str.split Str.nl) bs) ≠ [].
Proof.
  destruct bs as [|b bs]; [done|]. intros _. simpl.
  pose proof (split_not_nil Str.nl b). by destruct (Str.split Str.nl b).
Qed.

Lemma join_lines (bs : list string) :
  Str.join Str.NL (concat (map (Str.split Str.nl) bs)) = Str.join Str.NL bs.
Proof.
  induction bs as [|b bs IH]; [done|]. cbn [map concat].
  destruct bs as [|b' bs].
  - simpl. rewrite app_nil_r. apply join_split.
  - rewrite join_app; [|apply split_not_nil|by apply lines_not_nil].
    rewrite IH, join_split. by rewrite (join_cons _ b) by done.
Qed.

Lemma len_join sep l :
  Str.len (Str.join sep l)
  = sum_list (map Str.len l) + Str.len sep * (length l - 1).
Proof.
  induction l as [|x l IH]; [simpl; lia|].
  destruct l as [|y l].
  - simpl. lia.
  - rewrite join_cons by done. rewrite !len_app, IH.
    cbn [map sum_list sum_list_with length].
    rewrite !Nat.sub_succ, !Nat.sub_0_r, (Nat.mul_succ_r _ (length l)).
    unfold id. lia.
Qed.

End JoinSplit.

(** * Properties of the style mapper *)

(** ** Rounding *)

Section Rounding.

Local Open Scope Z_scope.

(** [round_half_even] returns an integer nearest to [n / d], and the even
    one of the two when [n / d] lies half way between two integers. *)
Lemma round_half_even_nearest (n d : Z) :
  0 < d ->
  let r := Float.round_half_even n d in
  2 * Z.abs (r * d - n) <= d
  /\ (2 * Z.abs (r * d - n) = d -> Z.even r = true).
Proof.
  intros Hd. unfold Float.round_half_even.
  pose proof (Z.div_mod n d ltac:(lia)) as Hdm.
  pose proof (Z.mod_pos_bound n d Hd) as Hb.
  set (q := n / d) in *. set (m := n mod d) in *.
  destruct (Z.compare_spec (2 * m) d) as [He|Hl|Hg]; cbv zeta.
  - destruct (Z.even q) eqn:Hev.
    + split; [|done]. replace (q * d - n) with (- m) by lia. lia.
    + split.
      * replace ((q + 1) * d - n) with (d - m) by lia. lia.
      * intros _. rewrite Z.even_add, Hev. reflexivity.
  - split.
    + replace (q * d - n) with (- m) by lia. lia.
    + replace (q * d - n) with (- m) by lia. lia.
  - split.
    + replace ((q + 1) * d - n) with (d - m) by lia. lia.
    + replace ((q + 1) * d - n) with (d - m) by lia. lia.
Qed.

End Rounding.

(** ** Lengths of the pieces of a style text *)

Section Lengths.

Implicit Types (s : string) (c : ascii).

Lemma length_lower s : String.length (Str.lower s) = String.length s.
Proof. induction s; simpl; auto. Qed.

Lemma length_split_piece c s p :
  p ∈ Str.split c s -> String.length p <= String.length s.
Proof.
  revert p; induction s as [|a s IH]; simpl; intros p Hp.
  - apply list_elem_of_singleton in Hp. subst. done.
  - destruct (Ascii.eqb a c).
    + apply elem_of_cons in Hp as [->|Hp]; [simpl; lia|].
      specialize (IH p Hp). lia.
    + destruct (Str.split c s) as [|h t] eqn:E.
      * apply list_elem_of_singleton in Hp. subst. simpl. lia.
      * apply elem_of_cons in Hp as [->|Hp].
        -- specialize (IH h ltac:(by left)). simpl. lia.
        -- specialize (IH p ltac:(by right)). lia.
Qed.

Lemma length_split_once c s :
  Str.contains c s = true ->
  String.length (snd (Str.split_once c s)) < String.length s.
Proof.
  induction s as [|a s IH]; simpl; [done|].
  destruct (Ascii.eqb a c); simpl; [lia|].
  intros H. specialize (IH H).
  destruct (Str.split_once c s). simpl in *. lia.
Qed.

Lemma length_lstrip s : String.length (Str.lstrip s) <= String.length s.
Proof.
  induction s as [|a s IH]; simpl; [done|].
  destruct (Str.is_space a); simpl; lia.
Qed.

Lemma length_rstrip s : String.length (Str.rstrip s) <= String.length s.
Proof.
  induction s as [|a s IH]; simpl; [done|].
  destruct (Str.rstrip s); [destruct (Str.is_space a)|]; simpl in *; lia.
Qed.

Lemma length_strip s : String.length (Str.strip s) <= String.length s.
Proof.
  unfold Str.strip. etrans; [apply length_rstrip|apply length_lstrip].
Qed.

End Lengths.

(** ** [attr_style] returns or raises: its depth is never used up *)

Section Depth.

Import CssParse.

Lemma run_handler_fuel o e : run_handler o e <> OutOfFuel.
Proof. by destruct o. Qed.

Lemma directive_fuel style d e :
  (forall v e', String.length v < String.length d -> style v e' <> OutOfFuel) ->
  directive style d e <> OutOfFuel.
Proof.
  intros Hstyle. unfold directive.
  destruct (Str.contains ":" d) eqn:Hc; simpl; [|done].
  pose proof (length_split_once ":" d Hc) as Hlen.
  destruct (Str.split_once ":" d) as [k v]. simpl in Hlen.
  assert (apply_style style (Str.strip k) (Str.strip v) e <> OutOfFuel) as Ha.
  { unfold apply_style. destruct (getattr _) as [m|]; [|done].
    destruct m; try apply run_handler_fuel.
    apply Hstyle. pose proof (length_strip v). lia. }
  destruct (apply_style style (Str.strip k) (Str.strip v) e) as [?|[] ?|];
    done.
Qed.

Lemma directives_fuel style ds e :
  (forall d v e', d ∈ ds -> String.length v < String.length d ->
                  style v e' <> OutOfFuel) ->
  directives style ds e <> OutOfFuel.
Proof.
  revert e. induction ds as [|d ds IH]; intros e Hstyle; simpl; [done|].
  assert (directive style d e <> OutOfFuel) as Hd.
  { apply directive_fuel. intros v e'. apply Hstyle. by left. }
  destruct (directive style d e); try done.
  apply IH. intros d' v e' Hd'. apply Hstyle. by right.
Qed.

Lemma attr_style_depth_enough depth s e :
  String.length s < depth -> attr_style_depth depth s e <> OutOfFuel.
Proof.
  revert s e. induction depth as [|depth IH]; intros s e Hlen; [lia|].
  cbn [attr_style_depth]. apply directives_fuel.
  intros d v e' Hd Hv. apply IH.
  apply length_split_piece in Hd. rewrite length_lower in Hd. lia.
Qed.

(** [attr_style] returns or raises on every text and every element. *)
Lemma attr_style_total s e : attr_style s e <> OutOfFuel.
Proof. apply attr_style_depth_enough. lia. Qed.

End Depth.

(** ** One directive *)

Section Directive.

Import CssParse HtmlElement.

Lemma eqb_lower_semicolon a :
  Ascii.eqb (Str.lower_char a) ";" = Ascii.eqb a ";".
Proof. by destruct a as [[] [] [] [] [] [] [] []]. Qed.

Lemma eqb_lower_colon a :
  Ascii.eqb (Str.lower_char a) ":" = Ascii.eqb a ":".
Proof. by destruct a as [[] [] [] [] [] [] [] []]. Qed.

Lemma contains_lower_semicolon s :
  Str.contains ";" (Str.lower s) = Str.contains ";" s.
Proof. induction s; simpl; [done|]. by rewrite eqb_lower_semicolon, IHs. Qed.

Lemma contains_lower_colon s :
  Str.contains ":" (Str.lower s) = Str.contains ":" s.
Proof. induction s; simpl; [done|]. by rewrite eqb_lower_colon, IHs. Qed.

(** A style text of one directive is handled by one run of the loop
    body. *)
Lemma attr_style_single s d e :
  Str.split ";" (Str.lower s) = [d] ->
  attr_style s e = directive (attr_style_depth (String.length s)) d e.
Proof.
  intros Hd. unfold attr_style. cbn [attr_style_depth]. rewrite Hd.
  cbn [directives]. by destruct (directive _ d e).
Qed.

(** A directive whose property name no attribute of the class answers to
    is skipped. *)
Lemma directive_unknown style d k v e :
  Str.contains ":" d = true ->
  Str.split_once ":" d = (k, v) ->
  getattr (method_name (Str.strip k)) = None ->
  directive style d e = Returned e.
Proof.
  intros Hc Hs Hg. unfold directive. rewrite Hc, Hs. simpl.
  unfold apply_style. by rewrite Hg.
Qed.

Lemma get_em_no_match value :
  RE_UNIT_search value = None -> _get_em value = Raises AttributeError.
Proof. intros H. unfold _get_em. by rewrite H. Qed.

(** A length directive whose value has no match of [RE_UNIT] is skipped:
    the [AttributeError] of the missing match ends the [try] block. *)
Lemma directive_length_no_match style d k v m e :
  Str.contains ":" d = true ->
  Str.split_once ":" d = (k, v) ->
  getattr (method_name (Str.strip k)) = Some m ->
  m ∈ length_methods ->
  RE_UNIT_search (Str.strip v) = None ->
  directive style d e = Returned e.
Proof.
  intros Hc Hs Hg Hm Hno. unfold directive. rewrite Hc, Hs. simpl.
  unfold apply_style. rewrite Hg.
  unfold length_methods in Hm.
  repeat (apply elem_of_cons in Hm as [->|Hm]);
    [..|by apply elem_of_nil in Hm];
    unfold attr_margin_before, attr_margin_after, attr_padding_start,
      attr_margin_top, attr_margin_bottom, attr_padding_left,
      suppress_ValueError;
    by rewrite (get_em_no_match _ Hno).
Qed.

End Directive.

(** ** The display mode [none] *)

Section DisplayNone.

Import CssParse HtmlElement.

Lemma suppress_display value assign e e' :
  (forall n, display (assign n) = display e) ->
  suppress_ValueError value assign e = Returns e' ->
  display e' = display e.
Proof.
  intros Ha. unfold suppress_ValueError.
  destruct (_get_em value) as [n|[]]; intros [= <-]; auto.
Qed.

Lemma apply_style_hidden style key value e :
  display e = Display.none ->
  (forall v e', display e' = Display.none -> leaves_hidden (style v e')) ->
  leaves_hidden (apply_style style key value e).
Proof.
  intros He Hstyle. unfold apply_style.
  destruct (getattr _) as [m|]; [|done].
  assert (forall o, (forall e', o = Returns e' -> display e' = display e) ->
            leaves_hidden (run_handler o e)) as Hrun.
  { intros [e'|x] Ho; simpl; [|done]. rewrite (Ho e'); done. }
  destruct m; try apply Hrun; try by apply Hstyle.
  - unfold attr_display. rewrite He. by intros e' [= <-].
  - unfold attr_white_space. intros e'.
    repeat case_match; by intros [= <-].
  - intros e'. by apply suppress_display.
  - intros e'. by apply suppress_display.
  - intros e'. by apply suppress_display.
  - unfold attr_horizontal_align. intros e'.
    case_match; by intros [= <-].
  - unfold attr_vertical_align. intros e'.
    case_match; by intros [= <-].
  - intros e'. by apply suppress_display.
  - intros e'. by apply suppress_display.
  - intros e'. by apply suppress_display.
Qed.

Lemma directive_hidden style d e :
  display e = Display.none ->
  (forall v e', display e' = Display.none -> leaves_hidden (style v e')) ->
  leaves_hidden (directive style d e).
Proof.
  intros He Hstyle. unfold directive.
  destruct (negb _); [done|]. destruct (Str.split_once ":" d) as [k v].
  pose proof (apply_style_hidden style (Str.strip k) (Str.strip v) e
                He Hstyle) as H.
  by destruct (apply_style _ _ _ _) as [?|[] ?|].
Qed.

Lemma directives_hidden style ds e :
  display e = Display.none ->
  (forall v e', display e' = Display.none -> leaves_hidden (style v e')) ->
  leaves_hidden (directives style ds e).
Proof.
  revert e. induction ds as [|d ds IH]; intros e He Hstyle; [done|].
  cbn [directives].
  pose proof (directive_hidden style d e He Hstyle) as H.
  destruct (directive style d e); try done. by apply IH.
Qed.

Lemma attr_style_depth_hidden depth s e :
  display e = Display.none -> leaves_hidden (attr_style_depth depth s e).
Proof.
  revert s e. induction depth as [|depth IH]; intros s e He; [done|].
  cbn [attr_style_depth]. apply directives_hidden; [done|].
  intros v e' He'. by apply IH.
Qed.

End DisplayNone.

(** ** What leaves [attr_style] *)

Section Escapes.

Import CssParse HtmlElement.






End Escapes.

(** * The specified behaviour of the table geometry engine *)

Section TableBehaviour.

Import TableCell.

(** C1. In the column-width pass of rendering (the pass that [get_text]
    runs on the table the row-height pass leaves), the pass returns, no
    row gains or loses a cell, and the cell at index [j] of every row
    that has such a cell is assigned, through the width setter, the
    width [w] of column [j]: [w] is the width of a cell present at index
    [j] in some row, and no cell present at index [j] in any row is
    wider. Rows without the index take no part. *)
Theorem column_width_pass (tb : Table.t) :
  Table.rows tb ≠ [] ->
  let rs1 := Table.rows (Table._set_row_height tb) in
  exists tb2,
    Table._set_column_width (Table._set_row_height tb) = Some tb2
    /\ Forall2
         (fun r1 r2 =>
            length (TableRow.columns r2) = length (TableRow.columns r1)
            /\ forall j c, TableRow.columns r1 !! j = Some c ->
                 exists w,
                   TableRow.columns r2 !! j = Some (set_width c w)
                   /\ (exists r c', r ∈ rs1
                         /\ TableRow.columns r !! j = Some c'
                         /\ width c' = Some w)
                   /\ (forall r c' w', r ∈ rs1 ->
                         TableRow.columns r !! j = Some c' ->
                         width c' = Some w' -> w' <= w))
         rs1 (Table.rows tb2).
Proof.
  intros Hne rs1.
  destruct (passes_return tb Hne) as (tb2 & H2 & HF).
  exists tb2. split; [done|].
  eapply Forall2_impl; [exact HF|].
  intros r1 r2 (_ & Hlen & Hcells). split; [done|].
  intros j c Hc. destruct (Hcells j c Hc) as (w & Hw & Hset).
  exists w. split; [done|]. by apply max_column_width_spec.
Qed.

Lemma column_width_pass_witness :
  Table.rows Sample.ragged ≠ []
  /\ exists tb2,
       Table._set_column_width (Table._set_row_height Sample.ragged)
       = Some tb2
       /\ map (fun r => map _width (TableRow.columns r)) (Table.rows tb2)
          = [[Some 4; Some 2; Some 4]; [Some 4]; [Some 4; Some 2; Some 4]].
Proof.
  split; [done|].
  destruct (column_width_pass Sample.ragged) as (tb2 & H2 & _); [done|].
  exists tb2. split; [exact H2|].
  vm_compute in H2. injection H2 as <-. reflexivity.
Defined.

(** C2. Setting the height of a cell to a target not above the current
    number of lines leaves the cell as it is. A target above it inserts
    exactly target minus current empty lines: all before the blocks for
    vertical alignment bottom, the half rounded down before and the rest
    after for middle, all after otherwise. A one-line cell with
    alignment middle grown to height 4 gets one empty line before and
    two after its line. *)
Theorem set_height_grows (c : TableCell.t) (h : nat) :
  let n := length (blocks c) in
  (h <= n -> set_height c h = c)
  /\ (n < h ->
      length (blocks (set_height c h)) = h
      /\ blocks (set_height c h) =
           match valign c with
           | VerticalAlignment.bottom =>
               replicate (h - n) EmptyString ++ blocks c
           | VerticalAlignment.middle =>
               replicate ((h - n) / 2) EmptyString ++ blocks c
               ++ replicate (h - n - (h - n) / 2) EmptyString
           | VerticalAlignment.top =>
               blocks c ++ replicate (h - n) EmptyString
           end)
  /\ (forall line, blocks c = [line] ->
      valign c = VerticalAlignment.middle ->
      blocks (set_height c 4) = [EmptyString; line; EmptyString; EmptyString]).
Proof.
  intros n. split; [apply set_height_ge|]. split.
  - intros Hlt. split; [rewrite set_height_length; lia|].
    unfold set_height. fold n.
    destruct (Nat.ltb_spec n h) as [_|?]; [|lia].
    pose proof (half_split (h - n)) as Hs.
    replace (h - n - (h - n) / 2) with ((h - n + 1) / 2) by lia.
    by destruct (valign c).
  - intros line Hb Hv. unfold set_height. rewrite Hb, Hv. reflexivity.
Qed.

Lemma set_height_grows_witness :
  set_height (Sample.middle_cell "e") 1 = Sample.middle_cell "e"
  /\ blocks (set_height (Sample.middle_cell "e") 4)
     = [EmptyString; "e"; EmptyString; EmptyString].
Proof.
  destruct (set_height_grows (Sample.middle_cell "e") 1) as (H1 & _ & _).
  destruct (set_height_grows (Sample.middle_cell "e") 4) as (_ & _ & H4).
  split; [apply H1; simpl; lia|by apply H4].
Defined.

(** C3. The row-height pass normalizes every cell of each row: the
    normalized cell has nothing pending, holds at least one block and no
    block with a line break, has as many blocks as the height that was
    returned, and its blocks joined with line breaks are the blocks of
    the flushed cell joined with line breaks. The pass then gives each
    cell the height setter's result for the row's maximum normalized line
    count, so that afterwards all cells of one row have that many lines,
    each one visual line, and nothing pending. And for a row whose cells
    all have [h] lines, the
    row's text joins, for every line index below [h] and in that order,
    the lines of that index of all cells with the separator, and joins
    these joined lines with a line break: every line of every cell
    appears. A row without cells has the empty text. *)
Theorem row_height_pass_and_row_text
    (tb : Table.t) (r : TableRow.t) (h : nat) :
  Forall2
    (fun r0 r1 =>
       TableRow.cell_separator r1 = TableRow.cell_separator r0
       /\ TableRow.columns r1
          = map (fun c => set_height (snd (normalize_blocks c))
                                     (Table.max_row_height r0))
                (TableRow.columns r0)
       /\ (TableRow.columns r0 ≠ [] ->
           py_max (map (fun c => fst (normalize_blocks c))
                       (TableRow.columns r0))
           = Some (Table.max_row_height r0))
       /\ Forall
            (fun c =>
               let c' := snd (normalize_blocks c) in
               current_block c' = EmptyString
               /\ Forall (fun b => Str.contains Str.nl b = false) (blocks c')
               /\ fst (normalize_blocks c) = length (blocks c')
               /\ 1 <= length (blocks c')
               /\ Str.join Str.NL (blocks c')
                  = Str.join Str.NL (blocks (flush_inline c)))
            (TableRow.columns r0)
       /\ Forall
            (fun c1 =>
               current_block c1 = EmptyString
               /\ Forall (fun b => Str.contains Str.nl b = false) (blocks c1)
               /\ length (blocks c1) = Table.max_row_height r0)
            (TableRow.columns r1))
    (Table.rows tb) (Table.rows (Table._set_row_height tb))
  /\ (TableRow.columns r ≠ [] ->
      Forall (fun c => length (blocks c) = h) (TableRow.columns r) ->
      TableRow.get_text r
      = Str.join Str.NL
          (map (fun i =>
                  Str.join (TableRow.cell_separator r)
                    (map (fun c => nth i (blocks c) EmptyString)
                         (TableRow.columns r)))
               (seq 0 h)))
  /\ (TableRow.columns r = [] -> TableRow.get_text r = EmptyString).
Proof.
  split; [|split].
  - unfold Table._set_row_height; cbn [Table.rows Table.with_rows].
    change (map ?f ?l) with (f <$> l) at 3.
    apply Forall2_fmap_r, Forall_Forall2_diag, Forall_forall.
    intros r0 _. split; [done|]. split; [done|].
    split; [apply max_row_height_is_max|]. split.
    + apply Forall_forall. intros c _. cbv zeta.
      destruct (normalize_clean c) as (Hp & Hne & Hl).
      split; [done|]. split; [done|]. split; [done|]. split.
      * destruct (blocks (snd (normalize_blocks c))); [done|simpl; lia].
      * unfold normalize_blocks. cbn [snd blocks].
        rewrite <- (join_lines (blocks (flush_inline c))).
        by destruct (concat _).
    + apply Forall_forall. intros c Hc.
      destruct (row_height_pass_cells _ _ Hc) as [(Hp & _ & Hl) Hlen].
      done.
  - intros Hne Hall. unfold TableRow.get_text.
    rewrite (py_zip_uniform EmptyString _ h).
    + rewrite map_map. f_equal. apply map_ext. intros i.
      by rewrite map_map.
    + by destruct (TableRow.columns r).
    + by apply Forall_map.
  - intros Hnil. unfold TableRow.get_text. by rewrite Hnil.
Qed.

Lemma row_height_pass_and_row_text_witness :
  TableRow.columns Sample.level_row ≠ []
  /\ Forall (fun c => length (blocks c) = 2)
            (TableRow.columns Sample.level_row)
  /\ TableRow.get_text Sample.level_row
     = String "a" (String "|" (String "c" (String Str.nl "b|d")))
  /\ map (fun r1 => map blocks (TableRow.columns r1))
         (Table.rows (Table._set_row_height Sample.ragged))
     = [[["a"; ""]; ["bb"; ""]; ["x"; "yyy"]];
        [["wide"]];
        [["d"]; ["e"]; ["ffff"]]]
  /\ Forall
       (fun r1 =>
          Forall (fun c1 =>
                    current_block c1 = EmptyString
                    /\ Forall (fun b => Str.contains Str.nl b = false)
                              (blocks c1))
                 (TableRow.columns r1))
       (Table.rows (Table._set_row_height Sample.ragged)).
Proof.
  assert (TableRow.columns Sample.level_row ≠ []) as Hne by done.
  assert (Forall (fun c => length (blocks c) = 2)
                 (TableRow.columns Sample.level_row)) as Hall
    by (repeat constructor).
  split; [exact Hne|]. split; [exact Hall|].
  destruct (row_height_pass_and_row_text Sample.ragged
              Sample.level_row 2) as (Hrows & H & _).
  split; [rewrite (H Hne Hall); reflexivity|]. split; [reflexivity|].
  apply Forall_forall. intros r1 [i Hi]%list_elem_of_lookup_1.
  destruct (Forall2_lookup_r _ _ _ _ _ Hrows Hi)
    as (r0 & _ & _ & _ & _ & _ & Hclean).
  eapply Forall_impl; [exact Hclean|].
  intros c1 (Hp & Hl & _). by split.
Defined.

(** C4. Rendering a table without rows returns exactly one line break
    (and leaves the table as it is). Rendering a table with at least one
    row returns: both passes succeed, and the text is the texts of the
    rows they leave, joined with a line break, followed by one line
    break. *)
Theorem get_text_layout (tb : Table.t) :
  (Table.rows tb = [] -> Table.get_text tb = Some (Str.NL, tb))
  /\ (Table.rows tb ≠ [] ->
      exists tb2,
        Table._set_column_width (Table._set_row_height tb) = Some tb2
        /\ length (Table.rows tb2) = length (Table.rows tb)
        /\ Table.get_text tb
           = Some (Str.join Str.NL (map TableRow.get_text (Table.rows tb2))
                   +:+ Str.NL, tb2)).
Proof.
  split.
  - intros Hnil. unfold Table.get_text. by rewrite Hnil.
  - intros Hne. destruct (passes_return tb Hne) as (tb2 & H2 & HF).
    exists tb2. split; [done|]. split.
    + apply Forall2_length in HF. rewrite <- HF.
      unfold Table._set_row_height; simpl. apply length_map.
    + unfold Table.get_text. rewrite H2.
      by destruct (Table.rows tb).
Qed.

Lemma get_text_layout_witness :
  Table.get_text (Table.init 0 " | ") = Some (Str.NL, Table.init 0 " | ")
  /\ fst <$> Table.get_text Sample.two_by_two
     = Some ("a   | bb" +:+ Str.NL +:+ "ccc | d " +:+ Str.NL).
Proof.
  split.
  - by apply (proj1 (get_text_layout (Table.init 0 " | "))).
  - destruct (proj2 (get_text_layout Sample.two_by_two))
      as (tb2 & H2 & _ & ->); [done|].
    vm_compute in H2. injection H2 as <-. reflexivity.
Defined.

(** C5. Rendering is idempotent: [get_text] returns on every table, a
    second call on the table the first call leaves returns too, with the
    same text, and the second call changes no block of any cell and no
    separator. *)
Theorem get_text_idempotent (tb : Table.t) :
  exists text tb1 tb2,
    Table.get_text tb = Some (text, tb1)
    /\ Table.get_text tb1 = Some (text, tb2)
    /\ map row_content (Table.rows tb2) = map row_content (Table.rows tb1).
Proof.
  destruct (Table.rows tb) as [|r0 rs0] eqn:Hrows.
  { exists Str.NL, tb, tb. unfold Table.get_text. by rewrite Hrows. }
  assert (Table.rows tb ≠ []) as Hne by by rewrite Hrows.
  destruct (passes_return tb Hne) as (tb1 & H1 & HF).
  assert (rendered tb1) as Hrend.
  { eapply column_pass_rendered; [|exact HF].
    unfold Table._set_row_height; cbn [Table.rows Table.with_rows].
    apply Forall_map, Forall_forall. intros r _.
    apply row_height_pass_levelled. }
  assert (Table.rows tb1 ≠ []) as Hne1.
  { apply Forall2_length in HF. revert HF.
    unfold Table._set_row_height; cbn [Table.rows Table.with_rows].
    rewrite length_map, Hrows. by destruct (Table.rows tb1). }
  destruct (column_pass_again tb1 Hne1 Hrend) as (tb2 & H2 & Hsame).
  exists (Str.join Str.NL (map TableRow.get_text (Table.rows tb1)) +:+ Str.NL),
    tb1, tb2.
  split; [|split; [|done]].
  - rewrite (get_text_rows tb Hne), H1. done.
  - rewrite (get_text_rows tb1 Hne1).
    rewrite (set_row_height_fixed tb1 (proj1 Hrend)), H2. simpl.
    by rewrite (same_content_same_text _ _ Hsame).
Qed.

(** C10, as amended. The width query returns a width that was set
    whenever that width is not zero; and when no width was set and the
    cell has at least one block it returns the maximum length among the
    cell's lines, every block being split on its line breaks: the length
    of one of these lines, and no line is longer. *)
Theorem width_query (c : TableCell.t) :
  (forall w, _width c = Some (S w) -> width c = Some (S w))
  /\ (_width c = None -> blocks c ≠ [] ->
      exists m,
        width c = Some m
        /\ (exists line, line ∈ concat (map (Str.split Str.nl) (blocks c))
                         /\ Str.len line = m)
        /\ forall line, line ∈ concat (map (Str.split Str.nl) (blocks c)) ->
                        Str.len line <= m).
Proof.
  split.
  - intros w Hw. unfold width. by rewrite Hw.
  - intros Hnone Hne.
    destruct (width_is_Some c Hne) as [m Hm]. exists m. split; [done|].
    unfold width in Hm. rewrite Hnone in Hm. split.
    + apply py_max_elem, list_elem_of_In, in_map_iff in Hm as (l & Hl & Hin).
      exists l. by rewrite list_elem_of_In.
    + intros l Hl. eapply py_max_ge; [done|].
      by apply list_elem_of_In, in_map, list_elem_of_In.
Qed.

Lemma width_query_witness :
  width (TableCell.mk ["abc"] EmptyString HorizontalAlignment.left
                      VerticalAlignment.top (Some 2) None 0) = Some 2
  /\ width Sample.tall_cell = Some 3.
Proof.
  split.
  - by apply (proj1 (width_query _)).
  - destruct (proj2 (width_query Sample.tall_cell)) as (m & Hw & _);
      [done..|].
    vm_compute in Hw. injection Hw as <-. reflexivity.
Defined.

(** C10, as stated, fails. A cell with the block abc whose width was set
    to [0] reports the width [3], not the width that was set; and the
    query raises on a cell without blocks and without a width. *)
Lemma width_query_counterexample :
  _width Sample.zero_width_cell = Some 0
  /\ width Sample.zero_width_cell = Some 3
  /\ width Sample.zero_width_cell <> Some (spec_cell_width Sample.zero_width_cell)
  /\ width (TableCell.init HorizontalAlignment.left VerticalAlignment.top)
     = None.
Proof. repeat split; done. Qed.

End TableBehaviour.

(** * The specified behaviour of the style mapper *)

Section StyleBehaviour.

Import CssParse HtmlElement.

Local Open Scope Z_scope.

(** C6, as amended. For every length text in which [RE_UNIT] finds a
    number text and a unit token, the number text being one that [float]
    converts, and the float being finite: [_get_em] returns the integer
    nearest to the float when the unit is of the em family, and otherwise
    the integer nearest to the float quotient by 8; when two integers are
    equally near it returns the even one. 16px gives 2, 2em gives 2 and
    -8px gives -1. *)
Theorem get_em_nearest_even
    (length number unit : string) (x : Float.t) (m e : Z) :
  RE_UNIT_search length = Some (number, unit) ->
  Float.of_string number = Some x ->
  (if is_em_unit unit then x else Float.div8 x) = Float.Finite m e ->
  (exists n,
      _get_em length = Returns n
      /\ 2 * Z.abs (n * Float.den e - Float.num m e) <= Float.den e
      /\ (2 * Z.abs (n * Float.den e - Float.num m e) = Float.den e ->
          Z.even n = true))
  /\ _get_em "16px" = Returns 2
  /\ _get_em "2em" = Returns 2
  /\ _get_em "-8px" = Returns (-1).
Proof.
  intros Hsearch Hfloat Hfin. split; [|by vm_compute].
  unfold _get_em. rewrite Hsearch, Hfloat, Hfin. cbn [Float.round].
  eexists. split; [done|].
  apply round_half_even_nearest. unfold Float.den.
  apply Z.pow_pos_nonneg; lia.
Qed.

Lemma get_em_nearest_even_witness :
  RE_UNIT_search "4px" = Some ("4", "px")
  /\ Float.of_string "4" = Some (Float.Finite 4503599627370496 (-50))
  /\ Float.div8 (Float.Finite 4503599627370496 (-50))
     = Float.Finite 4503599627370496 (-53)
  /\ exists n, _get_em "4px" = Returns n /\ Z.even n = true.
Proof.
  assert (RE_UNIT_search "4px" = Some ("4", "px")) as H1
    by (vm_compute; reflexivity).
  assert (Float.of_string "4" = Some (Float.Finite 4503599627370496 (-50)))
    as H2 by (vm_compute; reflexivity).
  assert (Float.div8 (Float.Finite 4503599627370496 (-50))
          = Float.Finite 4503599627370496 (-53)) as H3
    by (vm_compute; reflexivity).
  do 3 (split; [assumption|]).
  destruct (get_em_nearest_even "4px" "4" "px" _ _ _ H1 H2 H3)
    as [(n & Hn & _ & Heven) _].
  exists n. split; [exact Hn|].
  apply Heven. vm_compute in Hn. injection Hn as <-. reflexivity.
Defined.

(** C6, as stated, fails: a tie does not go away from zero. 4px is half
    an em and gives 0, and 2.5em gives 2, where rounding half away from
    zero gives 1 and 3. *)
Lemma get_em_counterexample :
  _get_em "4px" = Returns 0
  /\ spec_round_half_away 4 8 = 1
  /\ _get_em "2.5em" = Returns 2
  /\ spec_round_half_away 25 10 = 3.
Proof. by vm_compute. Qed.

(** C7, at the failing input. A top margin of four hundred digits is a
    number that [float] turns into an infinity, and rounding the infinity
    raises an [OverflowError] that nothing on the way out of [attr_style]
    catches. *)
Theorem attr_style_overflow :
  attr_style SampleStyle.huge_margin SampleStyle.element
  = Raised OverflowError SampleStyle.element.
Proof. by vm_compute. Qed.

(** The part of C7 on names that are not recognized: such a directive
    leaves the element as it is, in a style text of any number of
    directives. *)
Lemma unknown_property_ignored (style : string -> t -> run)
    (d k v : string) (e : t) :
  Str.contains ":" d = true ->
  Str.split_once ":" d = (k, v) ->
  getattr (method_name (Str.strip k)) = None ->
  directive style d e = Returned e.
Proof. apply directive_unknown. Qed.

(** C8. A directive of a style text that names a margin or padding
    handler (margin-top, margin-bottom, margin-before, margin-after,
    padding-left or padding-start) and whose value has no match of the
    number and unit pattern does not raise in the loop of [attr_style]:
    the loop goes on with the element as it was, so that every field,
    the target field among them, keeps its value; and [attr_style] on a
    text of that one directive returns with the element as it was. *)
Theorem length_directive_without_match
    (s d k v : string) (m : method) (e : t) :
  d ∈ Str.split ";" (Str.lower s) ->
  Str.contains ":" d = true ->
  Str.split_once ":" d = (k, v) ->
  getattr (method_name (Str.strip k)) = Some m ->
  m ∈ length_methods ->
  RE_UNIT_search (Str.strip v) = None ->
  (forall style, directive style d e = Returned e)
  /\ (Str.split ";" (Str.lower s) = [d] -> attr_style s e = Returned e).
Proof.
  intros _ Hc Hs Hg Hm Hno.
  assert (forall style, directive style d e = Returned e) as Hd.
  { intros style. by eapply directive_length_no_match. }
  split; [done|]. intros Hone. by rewrite (attr_style_single s d e Hone).
Qed.

Lemma length_directive_without_match_witness :
  "margin-top: auto" ∈ Str.split ";" (Str.lower "Margin-Top: auto")
  /\ RE_UNIT_search (Str.strip " auto") = None
  /\ attr_style "Margin-Top: auto" SampleStyle.hidden
     = Returned SampleStyle.hidden.
Proof.
  assert ("margin-top: auto" ∈ Str.split ";" (Str.lower "Margin-Top: auto"))
    as H1 by (vm_compute; by left).
  assert (Str.contains ":" "margin-top: auto" = true) as H2 by reflexivity.
  assert (Str.split_once ":" "margin-top: auto" = ("margin-top", " auto"))
    as H3 by reflexivity.
  assert (getattr (method_name (Str.strip "margin-top")) = Some m_margin_top)
    as H4 by reflexivity.
  assert (m_margin_top ∈ length_methods) as H5 by by left.
  assert (RE_UNIT_search (Str.strip " auto") = None) as H6 by reflexivity.
  split; [exact H1|]. split; [exact H6|].
  apply (proj2 (length_directive_without_match
                  "Margin-Top: auto" "margin-top: auto" "margin-top" " auto"
                  m_margin_top SampleStyle.hidden H1 H2 H3 H4 H5 H6)).
  reflexivity.
Defined.

(** C9. The display mode none is absorbing. On an element whose display
    is none, the display handler returns the element as it is, whatever
    the value (block included); and whatever style text [attr_style] is
    given, at whatever nesting, the element it leaves (on return as on a
    raise) has the display none. *)
Theorem display_none_absorbing (e : t) :
  display e = Display.none ->
  (forall value, attr_display value e = Returns e)
  /\ attr_style "display: block" e = Returned e
  /\ (forall style_attribute,
        match attr_style style_attribute e with
        | Returned e' | Raised _ e' => display e' = Display.none
        | OutOfFuel => False
        end).
Proof.
  intros He. split; [|split].
  - intros value. unfold attr_display. by rewrite He.
  - vm_compute. destruct e as [d w a v mb ma p]. simpl in He. by subst.
  - intros s. pose proof (attr_style_total s e) as Ht.
    pose proof (attr_style_depth_hidden (S (String.length s)) s e He) as Hh.
    unfold attr_style in *. by destruct (attr_style_depth _ s e).
Qed.

Lemma display_none_absorbing_witness :
  display SampleStyle.hidden = Display.none
  /\ attr_display "block" SampleStyle.hidden = Returns SampleStyle.hidden
  /\ attr_style "display: block; margin-top: 16px" SampleStyle.hidden
     = Returned (mk Display.none WhiteSpace.normal HorizontalAlignment.left
                    VerticalAlignment.top 2 2 3).
Proof.
  split; [reflexivity|]. split.
  - apply (proj1 (display_none_absorbing SampleStyle.hidden eq_refl)).
  - reflexivity.
Defined.

End StyleBehaviour.

(** * Further properties of the table geometry engine *)

(** ** Normalization and the two setters *)

Section CellsMore.

Import TableCell.
Implicit Types (c : TableCell.t) (h w : nat).

(** X1. Normalizing a cell keeps its text: the blocks it leaves, joined
    with line breaks, are the blocks after the flush, joined with line
    breaks. It returns the number of blocks it leaves, which is at least
    one; no block it leaves holds a line break; and normalizing again
    returns the same height and changes nothing. *)
Theorem normalize_blocks_keeps_text c :
  let c' := snd (normalize_blocks c) in
  Str.join Str.NL (blocks c') = Str.join Str.NL (blocks (flush_inline c))
  /\ fst (normalize_blocks c) = length (blocks c')
  /\ 1 <= length (blocks c')
  /\ Forall (fun b => Str.contains Str.nl b = false) (blocks c')
  /\ normalize_blocks c' = (fst (normalize_blocks c), c').
Proof.
  intros c'. destruct (normalize_clean c) as (Hp & Hne & Hl). fold c' in Hp, Hne, Hl.
  split; [|split; [done|split; [|split; [done|]]]].
  - subst c'. unfold normalize_blocks. cbn [snd blocks].
    rewrite <- (join_lines (blocks (flush_inline c))).
    by destruct (concat _).
  - destruct (blocks c'); [done|simpl; lia].
  - rewrite (normalize_of_clean c'); [done|]. by split.
Qed.

Lemma lines_app (l1 l2 : list string) :
  concat (map (Str.split Str.nl) (l1 ++ l2))
  = concat (map (Str.split Str.nl) l1) ++ concat (map (Str.split Str.nl) l2).
Proof. by rewrite map_app, concat_app. Qed.

Lemma lines_empty n :
  concat (map (Str.split Str.nl) (replicate n EmptyString))
  = replicate n EmptyString.
Proof. apply lines_of_one_line. by apply Forall_replicate. Qed.

Lemma py_max_pad_zero (pre ls post : list nat) :
  ls ≠ [] -> Forall (eq 0) pre -> Forall (eq 0) post ->
  py_max (pre ++ ls ++ post) = py_max ls.
Proof.
  intros Hne Hpre Hpost.
  destruct (py_max_is_Some ls Hne) as [m Hm]. rewrite Hm.
  apply py_max_unique.
  - apply elem_of_app. right. apply elem_of_app. left. by apply py_max_elem.
  - intros x [Hx|[Hx|Hx]%elem_of_app]%elem_of_app.
    + rewrite Forall_forall in Hpre. rewrite <- (Hpre x Hx). lia.
    + by eapply py_max_ge.
    + rewrite Forall_forall in Hpost. rewrite <- (Hpost x Hx). lia.
Qed.

(** What the height setter leaves: the blocks between empty lines. *)
Lemma set_height_shape c h :
  exists a b,
    blocks (set_height c h)
    = replicate a EmptyString ++ blocks c ++ replicate b EmptyString.
Proof.
  unfold set_height. destruct (_ <? _).
  - destruct (valign c); cbn [blocks].
    + exists 0, (h - length (blocks c)). done.
    + by eexists _, _.
    + eexists _, 0. by rewrite app_nil_r.
  - exists 0, 0. simpl. by rewrite app_nil_r.
Qed.

(** X2. The two setters do not disturb each other. Growing the height of
    a cell that has a block changes neither the width the cell reports
    nor the width recorded in it; setting the width changes neither the
    number of blocks, nor the height the cell reports, nor the recorded
    vertical padding. *)
Theorem setters_independent c h w :
  (blocks c ≠ [] -> width (set_height c h) = width c)
  /\ _width (set_height c h) = _width c
  /\ length (blocks (set_width c w)) = length (blocks c)
  /\ height (set_width c w) = height c
  /\ vertical_padding (set_width c w) = vertical_padding c.
Proof.
  split; [|split; [apply set_height_fields|split; [apply set_width_length|]]].
  - intros Hne. unfold width.
    rewrite (proj2 (set_height_fields c h)).
    destruct (set_height_shape c h) as (a & b & ->).
    rewrite !lines_app, !lines_empty, !map_app.
    rewrite py_max_pad_zero; [done| | |].
    + intros E. apply map_eq_nil in E. by apply lines_not_nil in E.
    + apply Forall_map, Forall_replicate. done.
    + apply Forall_map, Forall_replicate. done.
  - split; [|done]. unfold height. by rewrite set_width_length.
Qed.

Lemma setters_independent_witness :
  width (set_height Sample.tall_cell 5) = Some 3
  /\ height (set_width Sample.tall_cell 9) = 1.
Proof.
  split.
  - rewrite (proj1 (setters_independent Sample.tall_cell 5 0)); done.
  - by rewrite (proj1 (proj2 (proj2 (proj2
         (setters_independent Sample.tall_cell 0 9))))).
Defined.

End CellsMore.

(** ** Alignment of a rendered table *)

Section Alignment.

Import TableCell.
Implicit Types (rs : list TableRow.t) (r : TableRow.t) (c : TableCell.t).
Implicit Types (tb : Table.t) (i j k w h n : nat) (W : nat -> nat).

Lemma foldr_add_sum (l : list nat) : foldr Nat.add 0 l = sum_list l.
Proof. induction l; simpl; [done|]. unfold id. by rewrite IHl. Qed.

Lemma set_row_height_unsized tb :
  unsized tb -> unsized (Table._set_row_height tb).
Proof.
  intros Hu r c. unfold Table._set_row_height; cbn [Table.rows Table.with_rows].
  intros (r0 & <- & Hr0)%list_elem_of_In%in_map_iff.
  unfold Table.row_height_pass; cbn [TableRow.columns].
  intros (c0 & <- & Hc0)%list_elem_of_In%in_map_iff.
  rewrite (proj2 (set_height_fields _ _)), normalize_width.
  apply (Hu r0 c0); by apply list_elem_of_In.
Qed.

(** The width an unsized clean cell reports bounds each of its blocks. *)
Lemma width_bounds_blocks c x b :
  clean c -> _width c = None -> width c = Some x -> b ∈ blocks c ->
  Str.len b <= x.
Proof.
  intros (_ & _ & Hl) Hn Hx Hb. unfold width in Hx.
  rewrite Hn, (lines_of_one_line _ Hl) in Hx.
  eapply py_max_ge; [done|].
  by apply list_elem_of_In, in_map, list_elem_of_In.
Qed.

(** After the width pass on a levelled table of unsized cells, every cell
    of column [j] reports the width of the column and has it in each of
    its blocks. *)
Lemma column_pass_exact tb1 tb2 :
  Forall row_levelled (Table.rows tb1) -> unsized tb1 ->
  Forall2 (column_pass_row (Table.rows tb1)) (Table.rows tb1) (Table.rows tb2) ->
  forall r2 j c2,
    r2 ∈ Table.rows tb2 -> TableRow.columns r2 !! j = Some c2 ->
    let w := default 0 (Table.max_column_width j (Table.rows tb1)) in
    width c2 = Some w /\ Forall (fun b => Str.len b = w) (blocks c2).
Proof.
  intros Hlev Hu HF r2 j c2 [k Hr2]%list_elem_of_lookup_1 Hc2.
  apply Forall2_same_length_lookup in HF as [Hlen HF].
  destruct (lookup_same_length (Table.rows tb1) (Table.rows tb2) k Hlen)
    as [(r1 & r2' & Hr1 & Hr2')|[_ ?]]; [|congruence].
  assert (r2' = r2) as -> by congruence.
  destruct (HF k r1 r2 Hr1 Hr2) as (_ & Hl & Hcells).
  destruct (lookup_same_length (TableRow.columns r1)
              (TableRow.columns r2) j (eq_sym Hl))
    as [(c1 & c2' & Hc1 & Hc2')|[_ ?]]; [|congruence].
  destruct (Hcells j c1 Hc1) as (w & Hw & Hset).
  assert (c2 = set_width c1 w) as -> by congruence.
  rewrite Hw. cbn [default].
  pose proof (list_elem_of_lookup_2 _ _ _ Hr1) as Hin1.
  pose proof (list_elem_of_lookup_2 _ _ _ Hc1) as Hinc1.
  destruct (Forall_lookup_1 _ _ _ _ Hlev Hr1) as [Hclean _].
  pose proof (Forall_lookup_1 _ _ _ _ Hclean Hc1) as Hc1clean.
  destruct (width_is_Some c1) as [x Hx]; [by destruct Hc1clean as (_ & ? & _)|].
  assert (x <= w) as Hxw.
  { by apply (proj2 (max_column_width_spec j _ w Hw) r1 c1 x). }
  split; [by apply (width_set_width c1 w x)|].
  cbn [set_width blocks]. apply Forall_map, Forall_forall. intros b Hb.
  rewrite format_len.
  pose proof (width_bounds_blocks c1 x b Hc1clean (Hu r1 c1 Hin1 Hinc1) Hx Hb).
  unfold id. lia.
Qed.

(** The width and the text of a levelled row whose cells have, column by
    column, the widths [W] in each of their blocks. *)
Lemma row_text_exact W r :
  row_levelled r -> TableRow.columns r ≠ [] ->
  (forall j c, TableRow.columns r !! j = Some c ->
      width c = Some (W j) /\ Forall (fun b => Str.len b = W j) (blocks c)) ->
  let n := length (TableRow.columns r) in
  let total := sum_list (map W (seq 0 n))
               + Str.len (TableRow.cell_separator r) * (n - 1) in
  TableRow.width r = Some total
  /\ exists lines,
       TableRow.get_text r = Str.join Str.NL lines
       /\ lines ≠ []
       /\ Forall (fun l => Str.len l = total) lines.
Proof.
  intros [Hclean [h Hh]] Hne HW n total. split.
  - assert (TableRow.width r
            = ws ← mapM width (TableRow.columns r);
              Some (foldr Nat.add 0 ws
                    + Str.len (TableRow.cell_separator r)
                      * (length (TableRow.columns r) - 1))) as ->.
    { unfold TableRow.width. by destruct (TableRow.columns r). }
    rewrite (mapM_Some_2 _ _ (map W (seq 0 n))).
    + cbn [mbind option_bind]. by rewrite foldr_add_sum.
    + apply Forall2_same_length_lookup_2.
      * by rewrite length_map, length_seq.
      * intros j c y Hc Hy.
        change (map W (seq 0 n)) with (W <$> seq 0 n) in Hy.
        rewrite list_lookup_fmap in Hy.
        destruct (seq 0 n !! j) as [j'|] eqn:Hj; [|done].
        apply lookup_seq in Hj as [-> _]. injection Hy as <-.
        by destruct (HW j c Hc).
  - assert (1 <= h) as Hh1.
    { destruct (TableRow.columns r) as [|c0 cs] eqn:E; [done|].
      apply Forall_cons in Hh as [<- _]. apply Forall_cons in Hclean as [Hc0 _].
      destruct Hc0 as (_ & Hc0 & _). destruct (blocks c0); [done|simpl; lia]. }
    eexists. split; [|split].
    + unfold TableRow.get_text.
      rewrite (py_zip_uniform EmptyString _ h);
        [|by destruct (TableRow.columns r)|by apply Forall_map].
      rewrite map_map. reflexivity.
    + destruct h; [lia|]. done.
    + apply Forall_map, Forall_forall. intros i [_ Hi]%elem_of_seq.
      rewrite len_join, !length_map. fold n. unfold total. f_equal. f_equal.
      rewrite map_map.
      change (map ?f ?l) with (f <$> l). apply list_eq. intros j.
      rewrite !list_lookup_fmap.
      destruct (TableRow.columns r !! j) as [c|] eqn:Hc.
      * rewrite lookup_seq_lt by (apply lookup_lt_Some in Hc; done).
        simpl. f_equal. destruct (HW j c Hc) as [_ Hb].
        pose proof (Forall_lookup_1 _ _ _ _ Hh Hc) as Hlen.
        cbv beta in Hlen.
        destruct (lookup_lt_is_Some_2 (blocks c) i) as [b Hbi]; [lia|].
        rewrite (nth_lookup_Some _ _ _ _ Hbi).
        by apply (Forall_lookup_1 _ _ _ _ Hb Hbi).
      * rewrite lookup_seq_ge; [done|]. by apply lookup_ge_None_1.
Qed.

(** X3. A rendered table is aligned. When no cell of a table with a row
    had a width set before, [get_text] leaves a table with one width [W j]
    per column index: every cell at index [j] of any row reports it and
    has exactly that many characters in each of its blocks. And a row
    with cells then has as its width the sum of the widths of its columns
    and of the separators between them, and that is the length of every
    line of the row's text, of which there is at least one. *)
Theorem rendered_table_aligned tb :
  Table.rows tb ≠ [] -> unsized tb ->
  exists text tb2 W,
    Table.get_text tb = Some (text, tb2)
    /\ Forall
         (fun r2 =>
            (forall j c, TableRow.columns r2 !! j = Some c ->
               width c = Some (W j)
               /\ Forall (fun b => Str.len b = W j) (blocks c))
            /\ (TableRow.columns r2 ≠ [] ->
                let n := length (TableRow.columns r2) in
                let total :=
                  sum_list (map W (seq 0 n))
                  + Str.len (TableRow.cell_separator r2) * (n - 1) in
                TableRow.width r2 = Some total
                /\ exists lines,
                     TableRow.get_text r2 = Str.join Str.NL lines
                     /\ lines ≠ []
                     /\ Forall (fun l => Str.len l = total) lines))
         (Table.rows tb2).
Proof.
  intros Hne Hu.
  destruct (passes_return tb Hne) as (tb2 & H2 & HF).
  assert (Forall row_levelled (Table.rows (Table._set_row_height tb))) as Hlev.
  { unfold Table._set_row_height; cbn [Table.rows Table.with_rows].
    apply Forall_map, Forall_forall. intros r _.
    apply row_height_pass_levelled. }
  pose proof (column_pass_rendered _ _ Hlev HF) as [Hlev2 _].
  pose proof (column_pass_exact _ _ Hlev (set_row_height_unsized _ Hu) HF)
    as Hexact.
  eexists _, tb2,
    (fun j => default 0 (Table.max_column_width j
                (Table.rows (Table._set_row_height tb)))).
  split; [rewrite (get_text_rows tb Hne), H2; reflexivity|].
  apply Forall_forall. intros r2 Hr2.
  assert (forall j c, TableRow.columns r2 !! j = Some c ->
            width c = Some (default 0 (Table.max_column_width j
                        (Table.rows (Table._set_row_height tb))))
            /\ Forall (fun b => Str.len b = default 0
                        (Table.max_column_width j
                           (Table.rows (Table._set_row_height tb))))
                 (blocks c)) as Hcols.
  { intros j c Hc. by apply (Hexact r2 j c Hr2 Hc). }
  split; [exact Hcols|]. intros Hne2.
  apply row_text_exact; [|done|exact Hcols].
  by apply (proj1 (Forall_forall _ _) Hlev2).
Qed.

Lemma rendered_table_aligned_witness :
  Table.rows Sample.ragged ≠ [] /\ unsized Sample.ragged
  /\ exists text tb2,
       Table.get_text Sample.ragged = Some (text, tb2)
       /\ map TableRow.width (Table.rows tb2) = [Some 12; Some 4; Some 12].
Proof.
  assert (Table.rows Sample.ragged ≠ []) as Hne by done.
  assert (unsized Sample.ragged) as Hu.
  { intros r c Hr Hc. vm_compute in Hr.
    repeat (apply elem_of_cons in Hr as [->|Hr]);
      [..|by apply elem_of_nil in Hr];
      vm_compute in Hc;
      repeat (apply elem_of_cons in Hc as [->|Hc]);
      try reflexivity; by apply elem_of_nil in Hc. }
  split; [exact Hne|]. split; [exact Hu|].
  destruct (rendered_table_aligned Sample.ragged Hne Hu)
    as (text & tb2 & W & Hget & _).
  exists text, tb2. split; [exact Hget|].
  vm_compute in Hget. injection Hget as _ <-. reflexivity.
Defined.

End Alignment.

(** ** Building a table, and what rendering does to its cells *)

Section Building.

Import TableCell.
Implicit Types (rs : list TableRow.t) (r : TableRow.t) (c : TableCell.t).
Implicit Types (tb : Table.t).

Lemma append_to_last_snoc rs r c :
  Table.append_to_last (rs ++ [r]) c
  = rs ++ [TableRow.mk (TableRow.columns r ++ [c]) (TableRow.cell_separator r)].
Proof.
  induction rs as [|r0 rs IH]; [done|].
  change ((r0 :: rs) ++ [r]) with (r0 :: (rs ++ [r])).
  cbn [Table.append_to_last]. rewrite IH.
  by destruct (rs ++ [r]) eqn:E; [destruct rs|].
Qed.

Lemma list_snoc_cases {A} (l : list A) : l = [] \/ exists l' x, l = l' ++ [x].
Proof.
  induction l as [|a l IH]; [by left|]. right.
  destruct IH as [->|(l' & x & ->)].
  - by exists [], a.
  - by exists (a :: l'), x.
Qed.

(** X4. Cells enter a table in document order. [add_cell] on a table
    without rows makes one row with the table's separator holding the
    cell; on a table with rows it appends the cell to the last row and
    leaves the rows before it as they are. Either way the cells of the
    table, read row by row, are the cells before followed by the new
    cell. [add_row] appends a row without cells that has the table's
    separator, and so leaves the cells of the table as they are. *)
Theorem add_cell_document_order tb c :
  (Table.rows tb = [] ->
   Table.rows (Table.add_cell tb c)
   = [TableRow.mk [c] (Table.cell_separator tb)])
  /\ (forall rs r, Table.rows tb = rs ++ [r] ->
      Table.rows (Table.add_cell tb c)
      = rs ++ [TableRow.mk (TableRow.columns r ++ [c])
                           (TableRow.cell_separator r)])
  /\ cells (Table.add_cell tb c) = cells tb ++ [c]
  /\ Table.rows (Table.add_row tb)
     = Table.rows tb ++ [TableRow.mk [] (Table.cell_separator tb)]
  /\ cells (Table.add_row tb) = cells tb.
Proof.
  assert (forall rs r, Table.rows tb = rs ++ [r] ->
      Table.rows (Table.add_cell tb c)
      = rs ++ [TableRow.mk (TableRow.columns r ++ [c])
                           (TableRow.cell_separator r)]) as Hlast.
  { intros rs r Hrows. unfold Table.add_cell.
    assert (match Table.rows tb with [] => Table.add_row tb | _ => tb end
            = tb) as ->.
    { rewrite Hrows. by destruct rs. }
    cbn [Table.rows Table.with_rows]. rewrite Hrows.
    apply append_to_last_snoc. }
  assert (Table.rows tb = [] ->
   Table.rows (Table.add_cell tb c)
   = [TableRow.mk [c] (Table.cell_separator tb)]) as Hempty.
  { intros Hrows. unfold Table.add_cell, Table.add_row. by rewrite Hrows. }
  split; [done|]. split; [done|]. split; [|split].
  - unfold cells. destruct (list_snoc_cases (Table.rows tb))
      as [Hrows|(rs & r & Hrows)].
    + rewrite (Hempty Hrows), Hrows. done.
    + rewrite (Hlast rs r Hrows), Hrows.
      rewrite !map_app, !concat_app. simpl.
      by rewrite !app_nil_r, app_assoc.
  - done.
  - unfold cells, Table.add_row. cbn [Table.rows Table.with_rows].
    rewrite map_app, concat_app. simpl. by rewrite app_nil_r.
Qed.

Lemma add_cell_document_order_witness :
  map TableCell.current_block (cells Sample.two_by_two)
  = ["a"; "bb"; "ccc"; "d"]
  /\ cells (Table.add_cell Sample.two_by_two (Sample.cell "e"))
     = cells Sample.two_by_two ++ [Sample.cell "e"].
Proof.
  split; [reflexivity|].
  apply (add_cell_document_order Sample.two_by_two (Sample.cell "e")).
Defined.

(** X5. Rendering keeps the shape of a table. [get_text] on a table with
    a row leaves as many rows, each with its separator and as many cells
    as before, and in the place of a cell the cell that was normalized,
    then given the height of its row, then given a width: no cell is
    added for a short row, none is dropped, and every cell keeps its
    alignments. *)
Theorem get_text_keeps_shape tb :
  Table.rows tb ≠ [] ->
  exists text tb2,
    Table.get_text tb = Some (text, tb2)
    /\ Forall2
         (fun r r2 =>
            TableRow.cell_separator r2 = TableRow.cell_separator r
            /\ Forall2
                 (fun c c2 =>
                    (exists w,
                        c2 = set_width
                               (set_height (snd (normalize_blocks c))
                                           (Table.max_row_height r)) w)
                    /\ align c2 = align c /\ valign c2 = valign c)
                 (TableRow.columns r) (TableRow.columns r2))
         (Table.rows tb) (Table.rows tb2).
Proof.
  intros Hne. destruct (passes_return tb Hne) as (tb2 & H2 & HF).
  eexists _, tb2. split; [rewrite (get_text_rows tb Hne), H2; reflexivity|].
  revert HF. unfold Table._set_row_height; cbn [Table.rows Table.with_rows].
  generalize (map Table.row_height_pass (Table.rows tb)) at 1. intros rs1 HF.
  change (map ?f ?l) with (f <$> l) in HF.
  apply (Forall2_fmap_l Table.row_height_pass) in HF.
  eapply Forall2_impl; [exact HF|]. clear HF.
  intros r r2 (Hsep & Hlen & Hcells). cbn [compose] in *.
  split; [done|].
  unfold Table.row_height_pass in Hlen, Hcells.
  cbn [TableRow.columns] in Hlen, Hcells.
  apply Forall2_same_length_lookup_2; [by rewrite Hlen, length_map|].
  intros j c c2 Hc Hc2.
  destruct (Hcells j (set_height (snd (normalize_blocks c))
                                 (Table.max_row_height r))) as (w & _ & Hset).
  { change (map ?f ?l) with (f <$> l). by rewrite list_lookup_fmap, Hc. }
  assert (c2 = set_width (set_height (snd (normalize_blocks c))
                                     (Table.max_row_height r)) w) as ->
    by congruence.
  split; [by exists w|]. cbn [set_width align valign].
  rewrite (proj1 (set_height_fields _ _)), normalize_align.
  split; [done|].
  assert (forall c0 h0, valign (set_height c0 h0) = valign c0) as Hv.
  { intros c0 h0. unfold set_height. destruct (_ <? _); [|done].
    by destruct (valign c0) eqn:E. }
  by rewrite Hv, normalize_valign.
Qed.

Lemma get_text_keeps_shape_witness :
  Table.rows Sample.ragged ≠ []
  /\ exists text tb2,
       Table.get_text Sample.ragged = Some (text, tb2)
       /\ map TableRow.len (Table.rows tb2) = [3; 1; 3].
Proof.
  split; [done|].
  destruct (get_text_keeps_shape Sample.ragged) as (text & tb2 & Hget & _);
    [done|].
  exists text, tb2. split; [exact Hget|].
  vm_compute in Hget. injection Hget as _ <-. reflexivity.
Defined.

End Building.

(** ** The width of a row *)

Section RowWidth.

Import TableCell.
Implicit Types (r : TableRow.t) (c : TableCell.t).

(** X6. The width of a row. A row without cells has the width [0]. The
    width of a row with cells raises exactly when the width of one of its
    cells raises, as it does for a cell without blocks and without a
    width; otherwise it is the sum of the widths of the cells plus the
    length of the separator for every cell but one. *)
Theorem row_width_cases r :
  (TableRow.columns r = [] -> TableRow.width r = Some 0)
  /\ (TableRow.width r = None
      <-> exists c, c ∈ TableRow.columns r /\ width c = None)
  /\ (forall n, TableRow.width r = Some n ->
      exists ws,
        Forall2 (fun c w => width c = Some w) (TableRow.columns r) ws
        /\ n = sum_list ws
               + Str.len (TableRow.cell_separator r)
                 * (length (TableRow.columns r) - 1)).
Proof.
  assert (TableRow.width r
          = ws ← mapM width (TableRow.columns r);
            Some (foldr Nat.add 0 ws
                  + Str.len (TableRow.cell_separator r)
                    * (length (TableRow.columns r) - 1))) as Hw.
  { unfold TableRow.width. destruct (TableRow.columns r); [|done].
    simpl. f_equal. lia. }
  split; [|split].
  - intros Hnil. unfold TableRow.width. by rewrite Hnil.
  - rewrite Hw. split.
    + intros Hnone.
      destruct (mapM width (TableRow.columns r)) as [ws|] eqn:E; [done|].
      assert (~ Forall (is_Some ∘ width) (TableRow.columns r)) as Hnot.
      { intros Hall. apply mapM_is_Some_2 in Hall as [? ?]. congruence. }
      apply not_Forall_Exists, Exists_exists in Hnot as (c & Hc & Hcn);
        [|intros c; apply _].
      exists c. split; [done|]. cbn [compose] in Hcn.
      destruct (width c); [|done]. by destruct Hcn.
    + intros (c & Hc & Hcn).
      destruct (mapM width (TableRow.columns r)) as [ws|] eqn:E; [|done].
      exfalso. apply mapM_Some_1 in E.
      apply list_elem_of_lookup_1 in Hc as [j Hj].
      destruct (Forall2_lookup_l _ _ _ _ _ E Hj) as (w & _ & Hw'). congruence.
  - intros n. rewrite Hw. intros (ws & Hws & [= <-])%bind_Some.
    exists ws. split; [by apply mapM_Some_1|]. by rewrite foldr_add_sum.
Qed.

Lemma row_width_cases_witness :
  TableRow.width
    (TableRow.mk [set_width (Sample.middle_cell "ab") 5;
                  set_width (Sample.middle_cell "cde") 5] "|") = Some 11
  /\ TableRow.width
       (TableRow.mk [Sample.middle_cell "ab";
                     TableCell.init HorizontalAlignment.left
                                    VerticalAlignment.top] "|") = None.
Proof.
  split; [reflexivity|].
  apply (proj2 (proj1 (proj2 (row_width_cases _)))).
  exists (TableCell.init HorizontalAlignment.left VerticalAlignment.top).
  split; [|reflexivity]. apply elem_of_cons. right. by left.
Defined.

End RowWidth.

(** ** The height pass a second time *)

Section HeightPassAgain.

(** X16. The row-height pass is idempotent: run on the table it leaves,
    it changes nothing, since every cell is then normalized and as high
    as its row. *)
Theorem set_row_height_idempotent (tb : Table.t) :
  Table._set_row_height (Table._set_row_height tb) = Table._set_row_height tb.
Proof.
  apply set_row_height_fixed.
  unfold Table._set_row_height; cbn [Table.rows Table.with_rows].
  apply Forall_map, Forall_forall. intros r _.
  apply row_height_pass_levelled.
Qed.

End HeightPassAgain.

(** ** When the width pass raises *)

Section WidthPassRaises.

Import TableCell.
Implicit Types (rs : list TableRow.t) (r : TableRow.t) (c : TableCell.t).

Lemma column_loop_Some_widths idxs rs rs' :
  NoDup idxs -> Table.column_loop idxs rs = Some rs' ->
  forall i, i ∈ idxs -> is_Some (Table.max_column_width i rs).
Proof.
  revert rs. induction idxs as [|i idxs IH]; intros rs Hnd Hloop j Hj.
  { by apply elem_of_nil in Hj. }
  apply NoDup_cons in Hnd as [Hni Hnd].
  cbn [Table.column_loop] in Hloop.
  apply bind_Some in Hloop as (w & Hw & Hloop).
  apply elem_of_cons in Hj as [->|Hj]; [by eexists|].
  rewrite <- (max_column_width_set_column i j w rs) by (intros ->; done).
  by eapply IH.
Qed.

Lemma max_column_width_Some_cell j rs w r c :
  Table.max_column_width j rs = Some w ->
  r ∈ rs -> TableRow.columns r !! j = Some c -> is_Some (width c).
Proof.
  unfold Table.max_column_width.
  intros (ws & Hws & _)%bind_Some Hr Hc. apply mapM_Some_1 in Hws.
  assert (r ∈ filter (fun r => j < TableRow.len r) rs) as Hin.
  { apply list_elem_of_filter. split; [|done]. by eapply lookup_lt_Some. }
  apply list_elem_of_lookup_1 in Hin as [k Hk].
  destruct (Forall2_lookup_l _ _ _ _ _ Hws Hk) as (y & _ & Hf).
  unfold Table.cell_width_at in Hf. rewrite Hc in Hf. by exists y.
Qed.

(** X17. The column-width pass raises exactly on a table without rows
    and on a table that holds a cell whose width raises, which is a cell
    without blocks and without a width; on every other table it
    returns. *)
Theorem set_column_width_raises (tb : Table.t) :
  Table._set_column_width tb = None
  <-> Table.rows tb = []
      \/ exists r c, r ∈ Table.rows tb /\ c ∈ TableRow.columns r
                     /\ width c = None.
Proof.
  split.
  - intros Hnone.
    destruct (Table.rows tb) as [|r0 rs0] eqn:Hrows; [by left|]. right.
    rewrite <- Hrows in *.
    destruct (decide (Forall (fun r => Forall (fun c => is_Some (width c))
                                         (TableRow.columns r))
                             (Table.rows tb))) as [Hall|Hnot].
    + destruct (set_column_width_general tb) as (tb2 & H2 & _);
        [by rewrite Hrows| |congruence].
      intros r c Hr Hc.
      by apply (proj1 (Forall_forall _ _)
                  (proj1 (Forall_forall _ _) Hall r Hr) c Hc).
    + apply not_Forall_Exists, Exists_exists in Hnot as (r & Hr & Hnot);
        [|intros r; apply _].
      apply not_Forall_Exists, Exists_exists in Hnot as (c & Hc & Hcn);
        [|intros c; apply _].
      exists r, c. split; [done|]. split; [done|].
      unfold compose in Hcn. cbv beta in Hcn.
      destruct (width c); [|done]. destruct Hcn. by eexists.
  - intros [Hrows|(r & c & Hr & Hc & Hcn)].
    + unfold Table._set_column_width. by rewrite Hrows.
    + destruct (Table._set_column_width tb) as [tb2|] eqn:E; [|done].
      exfalso. unfold Table._set_column_width in E.
      apply bind_Some in E as (n & Hn & E).
      apply bind_Some in E as (rs' & Hloop & _).
      apply list_elem_of_lookup_1 in Hc as [j Hj].
      assert (j < n) as Hjn.
      { pose proof (py_max_len_bound _ _ r Hn Hr).
        apply lookup_lt_Some in Hj. unfold TableRow.len in *. lia. }
      destruct (column_loop_Some_widths _ _ _ (NoDup_seq 0 n) Hloop j)
        as [w Hw]; [apply elem_of_seq; lia|].
      destruct (max_column_width_Some_cell j _ w r c Hw Hr Hj) as [x Hx].
      congruence.
Qed.

Lemma set_column_width_raises_witness :
  Table._set_column_width (Table.init 0 "|") = None
  /\ Table._set_column_width
       (Table.add_cell (Table.init 0 "|")
          (TableCell.init HorizontalAlignment.left VerticalAlignment.top))
     = None.
Proof.
  split.
  - apply (proj2 (set_column_width_raises _)). by left.
  - reflexivity.
Defined.

End WidthPassRaises.

(** * Further properties of the style mapper *)

(** ** The nesting depth does not matter *)

Section DepthIrrelevant.

Import CssParse HtmlElement.

Lemma directive_ext style1 style2 d e :
  (forall v e', String.length v < String.length d ->
                style1 v e' = style2 v e') ->
  directive style1 d e = directive style2 d e.
Proof.
  intros Hext. unfold directive.
  destruct (Str.contains ":" d) eqn:Hc; simpl; [|done].
  pose proof (length_split_once ":" d Hc) as Hlen.
  destruct (Str.split_once ":" d) as [k v]. simpl in Hlen.
  unfold apply_style. destruct (getattr _) as [m|]; [|done].
  destruct m; try done.
  rewrite Hext; [done|]. pose proof (length_strip v). lia.
Qed.

Lemma directives_ext style1 style2 ds e :
  (forall d v e', d ∈ ds -> String.length v < String.length d ->
                  style1 v e' = style2 v e') ->
  directives style1 ds e = directives style2 ds e.
Proof.
  revert e. induction ds as [|d ds IH]; intros e Hext; [done|].
  cbn [directives].
  rewrite (directive_ext style1 style2 d e).
  - destruct (directive style2 d e); try done.
    apply IH. intros d' v e' Hd'. apply Hext. by right.
  - intros v e'. apply Hext. by left.
Qed.

(** Two depths above the length of a style text give the same run. *)
Lemma attr_style_depth_irrelevant d1 d2 s e :
  String.length s < d1 -> String.length s < d2 ->
  attr_style_depth d1 s e = attr_style_depth d2 s e.
Proof.
  revert d2 s e. induction d1 as [|d1 IH]; intros d2 s e H1 H2; [lia|].
  destruct d2 as [|d2]; [lia|]. cbn [attr_style_depth].
  apply directives_ext. intros d v e' Hd Hv.
  apply length_split_piece in Hd. rewrite length_lower in Hd.
  apply IH; lia.
Qed.

Lemma attr_style_unfold s e depth :
  String.length s <= depth ->
  attr_style s e
  = directives (attr_style_depth depth) (Str.split ";" (Str.lower s)) e.
Proof.
  intros Hd. unfold attr_style.
  rewrite (attr_style_depth_irrelevant _ (S depth)) by lia. done.
Qed.

End DepthIrrelevant.

(** ** Style texts in sequence *)

Section Sequence.

Import CssParse HtmlElement.

Lemma lower_app s1 s2 : Str.lower (s1 +:+ s2) = Str.lower s1 +:+ Str.lower s2.
Proof.
  induction s1 as [|a s1 IH]; [done|].
  rewrite append_cons. cbn [Str.lower]. by rewrite IH, append_cons.
Qed.

Lemma length_string_app s1 s2 :
  String.length (s1 +:+ s2) = String.length s1 + String.length s2.
Proof. apply len_app. Qed.

Lemma split_app_sep c s1 s2 :
  Str.split c (s1 +:+ String c s2) = Str.split c s1 ++ Str.split c s2.
Proof.
  induction s1 as [|a s1 IH].
  - change (EmptyString +:+ String c s2) with (String c s2).
    cbn [Str.split]. by rewrite Ascii.eqb_refl.
  - rewrite append_cons. cbn [Str.split]. rewrite IH.
    destruct (Ascii.eqb a c); [done|].
    pose proof (split_not_nil c s1). by destruct (Str.split c s1).
Qed.

Lemma directives_app style l1 l2 e :
  directives style (l1 ++ l2) e
  = match directives style l1 e with
    | Returned e1 => directives style l2 e1
    | r => r
    end.
Proof.
  revert e. induction l1 as [|d l1 IH]; intros e; [done|].
  cbn [app directives]. destruct (directive style d e); auto.
Qed.

(** X7. Style texts compose. [attr_style] on two style texts put together
    with a semicolon does what [attr_style] does on the first text and
    then, when that returns, on the second text with the element the
    first call leaves; when the first call raises, so does the whole. *)
Theorem attr_style_sequence (s1 s2 : string) (e : t) :
  attr_style (s1 +:+ String ";" s2) e
  = match attr_style s1 e with
    | Returned e1 => attr_style s2 e1
    | r => r
    end.
Proof.
  set (n := String.length (s1 +:+ String ";" s2)).
  assert (n = String.length s1 + S (String.length s2)) as Hn
    by apply length_string_app.
  rewrite (attr_style_unfold (s1 +:+ String ";" s2) e n) by done.
  rewrite (attr_style_unfold s1 e n) by lia.
  rewrite lower_app. cbn [Str.lower].
  replace (Str.lower_char ";") with ";"%char by reflexivity.
  rewrite split_app_sep, directives_app.
  destruct (directives _ (Str.split ";" (Str.lower s1)) e); try done.
  by rewrite (attr_style_unfold s2 _ n) by lia.
Qed.

End Sequence.

(** ** Texts without a directive, and the case of a style text *)

Section Edges.

Import CssParse HtmlElement.

Lemma contains_split_piece c c' s p :
  p ∈ Str.split c' s -> Str.contains c p = true -> Str.contains c s = true.
Proof.
  revert p; induction s as [|a s IH]; cbn [Str.split]; intros p Hp Hc.
  - apply list_elem_of_singleton in Hp. by subst.
  - cbn [Str.contains]. destruct (Ascii.eqb a c') eqn:Ha.
    + apply elem_of_cons in Hp as [->|Hp]; [done|].
      rewrite (IH p Hp Hc). apply orb_true_r.
    + destruct (Str.split c' s) as [|h t] eqn:E.
      * by destruct (split_not_nil c' s).
      * apply elem_of_cons in Hp as [->|Hp].
        -- cbn [Str.contains] in Hc.
           apply orb_true_iff in Hc as [->|Hc]; [done|].
           rewrite (IH h); [apply orb_true_r|by left|done].
        -- rewrite (IH p); [apply orb_true_r|by right|done].
Qed.

(** X8. A style text without a colon holds no directive: [attr_style]
    returns and leaves the element as it is, whatever else the text
    holds; the empty text is such a text. *)
Theorem attr_style_without_colon (s : string) (e : t) :
  Str.contains ":" s = false -> attr_style s e = Returned e.
Proof.
  intros Hs. rewrite (attr_style_unfold s e (String.length s)) by done.
  assert (forall ds : list string,
            (forall d, d ∈ ds -> Str.contains ":" d = false) ->
            directives (attr_style_depth (String.length s)) ds e = Returned e)
    as Hds.
  { induction ds as [|d ds IH]; intros Hall; [done|].
    cbn [directives]. unfold directive at 1.
    rewrite (Hall d) by by left. simpl. apply IH.
    intros d' Hd'. apply Hall. by right. }
  apply Hds. intros d Hd.
  destruct (Str.contains ":" d) eqn:Hc; [|done].
  pose proof (contains_split_piece ":" ";" _ d Hd Hc) as H.
  rewrite contains_lower_colon in H. congruence.
Qed.

Lemma attr_style_without_colon_witness :
  attr_style "" SampleStyle.hidden = Returned SampleStyle.hidden
  /\ attr_style "display block; 12px;;" SampleStyle.element
     = Returned SampleStyle.element.
Proof.
  split; by apply attr_style_without_colon.
Defined.

Lemma lower_char_idem a : Str.lower_char (Str.lower_char a) = Str.lower_char a.
Proof. by destruct a as [[] [] [] [] [] [] [] []]. Qed.

Lemma lower_idem s : Str.lower (Str.lower s) = Str.lower s.
Proof.
  induction s as [|a s IH]; [done|]. cbn [Str.lower].
  by rewrite lower_char_idem, IH.
Qed.

(** X9. The case of a style text does not matter: [attr_style] does on a
    text what it does on the text in lower case, for the property names
    and for the values alike. *)
Theorem attr_style_ignores_case (s : string) (e : t) :
  attr_style s e = attr_style (Str.lower s) e.
Proof.
  rewrite (attr_style_unfold s e (String.length s)) by done.
  rewrite (attr_style_unfold (Str.lower s) e (String.length s))
    by by rewrite length_lower.
  by rewrite lower_idem.
Qed.

End Edges.

(** ** What a handler assigns *)

Section Frame.

Import CssParse HtmlElement.

(** X10. Every handler assigns at most its own field. When a handler
    returns, the element it leaves is the element it was given except for
    the display ([attr_display]), the whitespace mode
    ([attr_white_space]), the margin before ([attr_margin_top]), the
    margin after ([attr_margin_bottom]), the inline padding
    ([attr_padding_left]), the horizontal ([attr_horizontal_align]) or
    the vertical alignment ([attr_vertical_align]). *)
Theorem handlers_assign_one_field (value : string) (e e' : t) :
  (attr_display value e = Returns e' ->
   e' = mk (display e') (whitespace e) (align e) (valign e)
           (margin_before e) (margin_after e) (padding_inline e))
  /\ (attr_white_space value e = Returns e' ->
      e' = mk (display e) (whitespace e') (align e) (valign e)
              (margin_before e) (margin_after e) (padding_inline e))
  /\ (attr_margin_top value e = Returns e' ->
      e' = mk (display e) (whitespace e) (align e) (valign e)
              (margin_before e') (margin_after e) (padding_inline e))
  /\ (attr_margin_bottom value e = Returns e' ->
      e' = mk (display e) (whitespace e) (align e) (valign e)
              (margin_before e) (margin_after e') (padding_inline e))
  /\ (attr_padding_left value e = Returns e' ->
      e' = mk (display e) (whitespace e) (align e) (valign e)
              (margin_before e) (margin_after e) (padding_inline e'))
  /\ (attr_horizontal_align value e = Returns e' ->
      e' = mk (display e) (whitespace e) (align e') (valign e)
              (margin_before e) (margin_after e) (padding_inline e))
  /\ (attr_vertical_align value e = Returns e' ->
      e' = mk (display e) (whitespace e) (align e) (valign e')
              (margin_before e) (margin_after e) (padding_inline e)).
Proof.
  destruct e as [d w a v mb ma p].
  unfold attr_display, attr_white_space, attr_margin_top, attr_margin_bottom,
    attr_padding_left, attr_horizontal_align, attr_vertical_align,
    suppress_ValueError.
  cbn [display whitespace align valign margin_before margin_after
       padding_inline].
  repeat split; intros H; repeat case_match; simplify_eq; reflexivity.
Qed.

Lemma handlers_assign_one_field_witness :
  attr_margin_top "16px" SampleStyle.hidden
  = Returns (mk Display.none WhiteSpace.normal HorizontalAlignment.left
                VerticalAlignment.top 2 2 3).
Proof.
  destruct (attr_margin_top "16px" SampleStyle.hidden) as [e'|x] eqn:E;
    [|by vm_compute in E].
  rewrite (proj1 (proj2 (proj2
    (handlers_assign_one_field "16px" SampleStyle.hidden e'))) E).
  vm_compute in E. injection E as <-. reflexivity.
Defined.

End Frame.

(** ** Property names *)

Section Names.

Import CssParse HtmlElement.

Lemma replace_webkit_prefix (k : string) :
  Str.replace "-webkit-" "" ("-webkit-" +:+ k) = Str.replace "-webkit-" "" k.
Proof.
  unfold Str.replace. rewrite !append_cons.
  change (EmptyString +:+ k) with k. reflexivity.
Qed.

(** X11. A vendor prefix in front of a property name is dropped, and the
    second names of the length handlers are the first ones: for every
    key, value and element the [try] block of [attr_style] does with the
    key [-webkit-] followed by [k] what it does with [k]; and it does
    with [margin-before], [margin-after] and [padding-start] what it does
    with [margin-top], [margin-bottom] and [padding-left]. *)
Theorem property_name_prefix_and_aliases
    (style : string -> t -> run) (k v : string) (e : t) :
  apply_style style ("-webkit-" +:+ k) v e = apply_style style k v e
  /\ apply_style style "margin-before" v e = apply_style style "margin-top" v e
  /\ apply_style style "margin-after" v e
     = apply_style style "margin-bottom" v e
  /\ apply_style style "padding-start" v e
     = apply_style style "padding-left" v e.
Proof.
  split; [|by repeat split].
  unfold apply_style, method_name. by rewrite replace_webkit_prefix.
Qed.

End Names.

(** ** Lengths without a unit *)

Section Unitless.

Import CssParse HtmlElement.

Lemma sign_of_digit (c : ascii) (s : string) :
  Str.is_digit c = true ->
  match String c s with
  | String "-" s' => (String "-" EmptyString, s')
  | _ => (EmptyString, String c s)
  end = (EmptyString, String c s).
Proof.
  destruct c as [[] [] [] [] [] [] [] []]; try reflexivity.
  intros H. by vm_compute in H.
Qed.

Lemma digit_is_number_char c :
  Str.is_digit c = true -> is_number_char c = true.
Proof. unfold is_number_char. by intros ->. Qed.

Lemma digit_is_word c : Str.is_digit c = true -> Str.is_word c = true.
Proof. unfold Str.is_word. intros ->. by rewrite !orb_true_r. Qed.

Lemma span_all p s :
  all_chars p s = true -> Str.span p s = (s, EmptyString).
Proof.
  induction s as [|a s IH]; [done|]. cbn [all_chars Str.span].
  intros [-> Hs]%andb_true_iff. by rewrite (IH Hs).
Qed.

Lemma all_chars_app p s1 s2 :
  all_chars p (s1 +:+ s2) = all_chars p s1 && all_chars p s2.
Proof.
  induction s1 as [|a s1 IH]; [done|].
  rewrite append_cons. cbn [all_chars]. by rewrite IH, andb_assoc.
Qed.

Lemma all_chars_impl (p q : ascii -> bool) s :
  (forall c, p c = true -> q c = true) ->
  all_chars p s = true -> all_chars q s = true.
Proof.
  intros Hpq. induction s as [|a s IH]; [done|]. cbn [all_chars].
  intros [Ha Hs]%andb_true_iff. by rewrite (Hpq a Ha), (IH Hs).
Qed.

Lemma last_digit_split_snoc s d :
  Str.is_digit d = true ->
  last_digit_split (s +:+ String d EmptyString)
  = Some (s, String d EmptyString).
Proof.
  intros Hd. induction s as [|a s IH].
  - change (EmptyString +:+ String d EmptyString) with (String d EmptyString).
    cbn [last_digit_split]. by rewrite Hd.
  - rewrite append_cons. cbn [last_digit_split]. by rewrite IH.
Qed.

(** X12. A length without a unit loses its last digit to the unit. In a
    text of two or more digits [RE_UNIT] finds all digits but the last as
    the number and the last digit as the unit, which is no em unit (so
    that [_get_em] divides the shortened number by 8); in a text of one
    digit it finds nothing, and [_get_em] raises the [AttributeError] of
    the missing match. *)
Theorem unitless_length (s : string) (d : ascii) :
  all_chars Str.is_digit s = true -> Str.is_digit d = true ->
  (s <> EmptyString ->
   RE_UNIT_search (s +:+ String d EmptyString)
   = Some (s, String d EmptyString)
   /\ is_em_unit (String d EmptyString) = false)
  /\ _get_em (String d EmptyString) = Raises AttributeError.
Proof.
  intros Hs Hd. split.
  - intros Hne. split.
    + destruct s as [|c0 s']; [done|]. clear Hne.
      cbn [all_chars] in Hs. apply andb_true_iff in Hs as [Hc0 Hs'].
      rewrite append_cons. cbn [RE_UNIT_search]. unfold RE_UNIT_match.
      rewrite (sign_of_digit c0 _ Hc0).
      rewrite (span_all is_number_char).
      2:{ cbn [all_chars]. rewrite (digit_is_number_char c0 Hc0).
          rewrite all_chars_app. cbn [all_chars].
          rewrite (digit_is_number_char d Hd).
          rewrite (all_chars_impl Str.is_digit is_number_char s'
                     digit_is_number_char Hs'). done. }
      cbn [Str.span fst]. rewrite (last_digit_split_snoc s' d Hd).
      cbn [Str.span]. rewrite (digit_is_word d Hd). done.
    + destruct d as [[] [] [] [] [] [] [] []]; try reflexivity;
        by vm_compute in Hd.
  - unfold _get_em. cbn [RE_UNIT_search]. unfold RE_UNIT_match.
    rewrite (sign_of_digit d _ Hd).
    cbn [Str.span]. rewrite (digit_is_number_char d Hd).
    cbn [Str.span fst last_digit_split].
    reflexivity.
Qed.

Lemma unitless_length_witness :
  RE_UNIT_search "16" = Some ("1", "6")
  /\ _get_em "16" = Returns 0%Z
  /\ _get_em "7" = Raises AttributeError.
Proof.
  destruct (unitless_length "1" "6" eq_refl eq_refl) as [H _].
  destruct (H ltac:(done)) as [Hsearch _].
  split; [exact Hsearch|]. split; [reflexivity|].
  apply (unitless_length "" "7" eq_refl eq_refl).
Defined.

End Unitless.

(** ** Attributes *)

Section Attributes.

Import CssParse HtmlElement Attribute.





End Attributes.

(** ** Unknown properties, and what may leave [attr_style] *)

Section Unknown.

Import CssParse HtmlElement.

(** X14. Unknown properties are skipped. When no directive of a style
    text names an attribute of the class (no handler and not [style]
    itself), [attr_style] returns and leaves the element as it is,
    whatever the values of the directives. *)
Theorem attr_style_unknown_properties (s : string) (e : t) :
  (forall d, d ∈ Str.split ";" (Str.lower s) ->
     Str.contains ":" d = true ->
     getattr (method_name (Str.strip (fst (Str.split_once ":" d)))) = None) ->
  attr_style s e = Returned e.
Proof.
  intros Hall. rewrite (attr_style_unfold s e (String.length s)) by done.
  revert Hall. generalize (Str.split ";" (Str.lower s)).
  induction l as [|d ds IH]; intros Hall; [done|].
  cbn [directives].
  assert (directive (attr_style_depth (String.length s)) d e = Returned e)
    as ->.
  { destruct (Str.contains ":" d) eqn:Hc.
    - destruct (Str.split_once ":" d) as [k v] eqn:Hs.
      apply (directive_unknown _ d k v e Hc Hs).
      specialize (Hall d ltac:(by left) Hc). by rewrite Hs in Hall.
    - unfold directive. by rewrite Hc. }
  apply IH. intros d' Hd'. apply Hall. by right.
Qed.

Lemma attr_style_unknown_properties_witness :
  attr_style "color: red; Font-Size: 12px; width: 9999em"
             SampleStyle.element
  = Returned SampleStyle.element.
Proof.
  apply attr_style_unknown_properties. intros d Hd Hc.
  vm_compute in Hd.
  repeat (apply elem_of_cons in Hd as [->|Hd]); try reflexivity.
  by apply elem_of_nil in Hd.
Defined.


End Unknown.
